(** * Block Together: the action processing engine of [actions.js]

    A shallow embedding of [src/actions.js] and the properties of its
    processing pass: batch selection, the bulk relationship check, the
    classification of every pending action and the chained execution of
    the block writes.

    The JavaScript is callback driven.  Within one account's batch every
    callback is registered by the step before it, so one batch runs as a
    sequence; it is written here in a state monad whose state carries the
    outside world (Twitter and the database, which answer the calls), the
    trace of the calls and log lines issued so far, and the mutable
    [status] attribute of the in-memory action objects.  A callback such as
    [next] is a computation of that monad, passed around as in the source.

    [processBlocks] starts the runs of all accounts at once and their
    callbacks interleave; what is modelled of it is its query.  Everything
    below is about one account's run, [processActionsForUserId] and the
    functions it reaches. *)

From Stdlib Require Import ZArith.
From stdpp Require Import gmap strings list sorting.

Open Scope string_scope.
Open Scope list_scope.
Open Scope nat_scope.

(** ** Data model *)

(** Modelled from the spec: the status constants [Action.PENDING],
    [Action.DONE], ... are defined with the Action model in [setup.js],
    which is not among the sources; the spec lists them (section 3).  They
    are distinct non-empty strings, hence all truthy in [if (newState)]. *)
Inductive ActionStatus :=
  | PENDING
  | DONE
  | CANCELLED_DUPLICATE
  | CANCELLED_FOLLOWING
  | CANCELLED_UNBLOCKED
  | CANCELLED_SELF
  | DEFERRED_TARGET_SUSPENDED.

#[global] Instance ActionStatus_eq_dec : EqDecision ActionStatus.
Proof. solve_decision. Defined.

(** One element of the answer of [friendships/lookup]. *)
Record Friendship := {
  id_str : string;
  screen_name : string;
  connections : list string
}.

(** A row of the [UnblockedUser] table attached to a [BtUser]. *)
Record UnblockedUser := {
  unblocked_sink_uid : string
}.

(** An account, with the rows of its suppression list.  Its
    [screen_name] is [bt_screen_name] here, the name being taken by
    [Friendship]. *)
Record BtUser := {
  uid : string;
  bt_screen_name : string;
  access_token : string;
  access_token_secret : string;
  unblockedUsers : list UnblockedUser
}.

(** An in-memory action object.  Objects are modelled component-wise: an
    [Action] is the object's identity (its primary key) with the
    attributes the engine only reads; the one attribute the engine
    assigns, [status], lives in the state, keyed by identity (see
    [st_status] below), so two references to one object share it. *)
Record Action := {
  action_id : nat;
  source_uid : string;
  sink_uid : string;
  action_type : string
}.

(** The error object node-twitter-api hands to a callback. *)
Record ApiError := {
  statusCode : Z;
  data : string
}.

(** The answer of [blocks/create]: the blocked user. *)
Record BlockedUser := {
  blocked_screen_name : string;
  blocked_id_str : string
}.

(** ** The Actions table and the selector's queries *)

(** A row of the Actions table. *)
Record ActionRow := {
  row_id : nat;
  row_source_uid : string;
  row_sink_uid : string;
  row_type : string;
  row_status : ActionStatus;
  row_updatedAt : Z
}.

(** The options object handed to Sequelize, as data.  The source writes
    the [where] clause as the SQL text [status = "pending" and type =
    "block"]; it is kept here as the list of its conjuncts, "pending"
    being the value of [Action.PENDING]. *)
Inductive Condition :=
  | StatusIs (s : ActionStatus)
  | TypeIs (t : string)
  | SourceIs (u : string).

Inductive GroupColumn := GroupSourceUid.
Inductive OrderClause := UpdatedAtAsc.

Record FindOptions := {
  fo_where : list Condition;
  fo_group : option GroupColumn;
  fo_order : option OrderClause;
  fo_limit : nat
}.

(** The options of [Action.findAll] in [processBlocks]. *)
Definition processBlocks_options : FindOptions :=
  {| fo_where := [StatusIs PENDING; TypeIs "block"];
     fo_group := Some GroupSourceUid;
     fo_order := None;
     fo_limit := 300 |}.

(** The options of [btUser.getActions] in [processActionsForUserId]. *)
Definition getActions_options : FindOptions :=
  {| fo_where := [StatusIs PENDING; TypeIs "block"];
     fo_group := None;
     fo_order := Some UpdatedAtAsc;
     fo_limit := 100 |}.

(** ** Observable effects *)

Inductive LogLevel := LvlDebug | LvlInfo | LvlWarn | LvlError.

(** An argument of a logger call. *)
Inductive LogArg :=
  | LStr (s : string)
  | LNum (n : nat)
  | LApiErr (e : ApiError)
  | LStatus (c : Z)
  | LStoreErr (e : string)
  | LUndefined.

Inductive Event :=
  | Log (lvl : LogLevel) (args : list LogArg)
  | FriendshipsLookup (user_id token secret : string)
  | BlocksCreate (user_id token secret : string)
  | Save (a : Action) (st : option ActionStatus)
  | BtUserFind (uid : string)
  | GetActions (uid : string) (options : FindOptions).


(** The collaborators outside the engine: the Twitter client and the
    database.  Each call may change the world [W] and answers with an
    error or a result, as the node callbacks [function(err, result)] and
    the [.error(..)] / [.success(..)] emitters of Sequelize do. *)
Record Collaborators (W : Type) := {
  (* twitter.friendships('lookup', {user_id: ..}, token, secret, cb) *)
  twitter_friendships : string → string → string → W → (ApiError + list Friendship) * W;
  (* twitter.blocks('create', {user_id: .., skip_status: 1}, token, secret, cb) *)
  twitter_blocks : string → string → string → W → (ApiError + BlockedUser) * W;
  (* action.save(): [Some err] fires the error handler, [None] the success one *)
  action_save : Action → option ActionStatus → W → option string * W;
  (* BtUser.find({where: {uid: uid}, include: [UnblockedUser]}): an error,
     or the account with its unblocked users, or null *)
  btUser_find : string → W → (string + option BtUser) * W;
  (* btUser.getActions(options): an error, or the rows found *)
  btUser_getActions : BtUser → FindOptions → W
                      → (string + option (list ActionRow)) * W
}.
Arguments twitter_friendships {W} _ _ _ _ _.
Arguments twitter_blocks {W} _ _ _ _ _.
Arguments action_save {W} _ _ _ _.
Arguments btUser_find {W} _ _ _.
Arguments btUser_getActions {W} _ _ _ _.

Record State (W : Type) := {
  st_world : W;
  st_trace : list Event;
  st_status : gmap nat ActionStatus
}.
Arguments st_world {W} _.
Arguments st_trace {W} _.
Arguments st_status {W} _.
Arguments Build_State {W} _ _ _.

(** ** The monad of one batch *)

Definition M (W A : Type) : Type := State W → A * State W.

Definition ret {W A} (a : A) : M W A := fun s => (a, s).

Definition bind {W A B} (c : M W A) (k : A → M W B) : M W B :=
  fun s => let (a, s') := c s in k a s'.

Notation "x <- c ;; k" := (bind c (fun x => k))
  (at level 100, c at next level, right associativity).
Notation "c ;;; k" := (bind c (fun _ => k))
  (at level 100, right associativity).

Definition emit {W} (e : Event) : M W unit :=
  fun s => (tt, Build_State (st_world s) (st_trace s ++ [e]) (st_status s)).

Definition logger_debug {W} (args : list LogArg) : M W unit := emit (Log LvlDebug args).
Definition logger_info {W} (args : list LogArg) : M W unit := emit (Log LvlInfo args).
Definition logger_warn {W} (args : list LogArg) : M W unit := emit (Log LvlWarn args).
Definition logger_error {W} (args : list LogArg) : M W unit := emit (Log LvlError args).

(** [action.status = newState] *)
Definition assign_status {W} (action : Action) (newState : ActionStatus) : M W unit :=
  fun s => (tt, Build_State (st_world s) (st_trace s)
                  (<[action_id action := newState]> (st_status s))).

(** Ask the world, after recording the call. *)
Definition ask {W A} (e : Event) (f : W → A * W) : M W A :=
  fun s => let (a, w') := f (st_world s) in
           (a, Build_State w' (st_trace s ++ [e]) (st_status s)).

(** ** Helpers of lodash used by the engine *)

(** [_.contains(collection, target)] on an array of strings. *)
Definition contains (collection : list string) (target : string) : bool :=
  bool_decide (target ∈ collection).

(** [_.find(sourceBtUser.unblockedUsers, {sink_uid: sink_uid})]: the first
    element whose [sink_uid] property equals the given one, or
    [undefined]. *)
Definition find_unblocked (l : list UnblockedUser) (sink : string)
  : option UnblockedUser :=
  List.find (fun u => bool_decide (unblocked_sink_uid u = sink)) l.

(** The names a plain object answers to besides its own keys: the
    members it inherits from [Object.prototype]. *)
Definition Object_prototype_keys : list string :=
  ["constructor"; "toString"; "toLocaleString"; "valueOf"; "hasOwnProperty";
   "isPrototypeOf"; "propertyIsEnumerable"; "__proto__"; "__defineGetter__";
   "__defineSetter__"; "__lookupGetter__"; "__lookupSetter__"].

(** An inherited member as the engine reads it when a lookup returns it in
    place of a friendship: it is truthy; it has no [connections], and
    [_.contains(undefined, ..)] is false; its [screen_name] and [id_str]
    are undefined, which the logger prints as the text kept here. *)
Definition inherited_member : Friendship :=
  {| id_str := "undefined"; screen_name := "undefined"; connections := [] |}.

(** What the empty object [{}] answers to a lookup. *)
Definition Object_prototype : gmap string Friendship :=
  list_to_map ((fun k => (k, inherited_member)) <$> Object_prototype_keys).

(** [_.indexBy(friendships, 'id_str')], as the lookups
    [indexedFriendships[sink_uid]] of the engine see it: a plain object,
    keyed by [id_str], a later element overwriting an earlier one with
    the same key; for a key that is not its own the object answers with
    the member it inherits, if the key names one.  (The [id_str] of the
    elements come from Twitter and are decimal; the sink ids looked up
    come from the callers of [queueBlocks] and are any strings.) *)
Definition indexBy_id_str (friendships : list Friendship)
  : gmap string Friendship :=
  foldl (fun m f => <[id_str f := f]> m) Object_prototype friendships.

(** ** The engine *)

Section Engine.
Context {W : Type} (env : Collaborators W).

Definition save (action : Action) : M W (option string) :=
  fun s =>
    let st := st_status s !! action_id action in
    ask (Save action st) (action_save env action st) s.

(** [setActionStatus(action, newState, next)] *)
Definition setActionStatus (action : Action) (newState : ActionStatus)
    (next : M W unit) : M W unit :=
  assign_status action newState ;;;
  r <- save action ;;
  match r with
  | Some err => logger_error [LStoreErr err] ;;; next
  | None => next
  end.

(** The [if / else if] chain of [blockUnlessFollowingWithFriendships]
    that decides [newState]; [None] is the initial [null]. *)
Definition newState (sourceBtUser : BtUser) (friendship : option Friendship)
    (sink_uid : string) : option ActionStatus :=
  match friendship with
  | None => Some DEFERRED_TARGET_SUSPENDED
  | Some friendship =>
      if contains (connections friendship) "blocking" then
        Some CANCELLED_DUPLICATE
      else if contains (connections friendship) "following" then
        Some CANCELLED_FOLLOWING
      else if find_unblocked (unblockedUsers sourceBtUser) sink_uid is Some _ then
        Some CANCELLED_UNBLOCKED
      else if bool_decide (uid sourceBtUser = sink_uid) then
        Some CANCELLED_SELF
      else None
  end.

(** A property read off a possibly undefined friendship, as a log
    argument. *)
Definition friendship_prop (p : Friendship → string)
    (friendship : option Friendship) : LogArg :=
  match friendship with
  | Some f => LStr (p f)
  | None => LUndefined
  end.

(** The callback [function(err, results)] handed to
    [twitter.blocks('create', ...)]. *)
Definition blocks_create_callback (sourceBtUser : BtUser)
    (friendship : option Friendship) (action : Action) (next : M W unit)
    (r : ApiError + BlockedUser) : M W unit :=
  match r with
  | inl err =>
      logger_error [LStr "Error blocking: %j"; LApiErr err] ;;;
      logger_error [LStr "Error /blocks/create"; LStatus (statusCode err);
                    LStr (bt_screen_name sourceBtUser); LStr (uid sourceBtUser);
                    LStr "--block-->"; friendship_prop screen_name friendship;
                    friendship_prop id_str friendship; LStr (data err)]
  | inr results =>
      logger_info [LStr "Blocked "; LStr (bt_screen_name sourceBtUser);
                   LStr (uid sourceBtUser); LStr "--block-->";
                   LStr (blocked_screen_name results);
                   LStr (blocked_id_str results)] ;;;
      setActionStatus action DONE next
  end.

(** The body of [blockUnlessFollowingWithFriendships] after the guard,
    for the first action and the bound continuation [next]. *)
Definition processAction (sourceBtUser : BtUser)
    (indexedFriendships : gmap string Friendship)
    (action : Action) (next : M W unit) : M W unit :=
  let sink_uid := sink_uid action in
  let friendship := indexedFriendships !! sink_uid in
  match newState sourceBtUser friendship sink_uid with
  | Some newState => setActionStatus action newState next
  | None =>
      logger_debug [LStr "Creating block"; LStr (bt_screen_name sourceBtUser);
                    LStr "--block-->"; friendship_prop screen_name friendship;
                    LStr sink_uid] ;;;
      r <- ask (BlocksCreate sink_uid (access_token sourceBtUser)
                  (access_token_secret sourceBtUser))
               (twitter_blocks env sink_uid (access_token sourceBtUser)
                  (access_token_secret sourceBtUser)) ;;
      blocks_create_callback sourceBtUser friendship action next r
  end.

(** [blockUnlessFollowingWithFriendships(sourceBtUser, indexedFriendships,
    actions)]; [next] is the function itself bound to [actions.slice(1)]. *)
Fixpoint blockUnlessFollowingWithFriendships (sourceBtUser : BtUser)
    (indexedFriendships : gmap string Friendship)
    (actions : list Action) : M W unit :=
  match actions with
  | [] => ret tt
  | action :: rest =>
      let next :=
        blockUnlessFollowingWithFriendships sourceBtUser indexedFriendships rest in
      processAction sourceBtUser indexedFriendships action next
  end.

(** The guard [!actions || actions.length < 1] also lets a [null] argument
    through to the immediate [return]; no caller in the file passes one
    (the recursion passes a slice, [blockUnlessFollowing] an array it has
    mapped over).  This is the function on an argument that may be
    [null]. *)
Definition blockUnlessFollowingWithFriendships_nullable (sourceBtUser : BtUser)
    (indexedFriendships : gmap string Friendship)
    (actions : option (list Action)) : M W unit :=
  match actions with
  | None => ret tt
  | Some actions =>
      blockUnlessFollowingWithFriendships sourceBtUser indexedFriendships actions
  end.

(** [blockUnlessFollowing(sourceBtUser, sinkUids, actions)] *)
Definition blockUnlessFollowing (sourceBtUser : BtUser)
    (sinkUids : list string) (actions : list Action) : M W unit :=
  if bool_decide (100 < length sinkUids) then
    logger_error [LStr "No more than 100 sinkUids allowed. Given";
                  LNum (length sinkUids)]
  else
    logger_debug [LStr "Checking follow status"; LStr (uid sourceBtUser);
                  LStr "--???-->"; LNum (length sinkUids); LStr "users"] ;;;
    r <- ask (FriendshipsLookup (String.concat "," sinkUids)
                (access_token sourceBtUser) (access_token_secret sourceBtUser))
             (twitter_friendships env (String.concat "," sinkUids)
                (access_token sourceBtUser) (access_token_secret sourceBtUser)) ;;
    match r with
    | inl err =>
        logger_error [LStr "Error /friendships/lookup"; LStatus (statusCode err);
                      LStr "for"; LStr (bt_screen_name sourceBtUser);
                      LStr (data err)]
    | inr friendships =>
        let indexedFriendships := indexBy_id_str friendships in
        blockUnlessFollowingWithFriendships sourceBtUser indexedFriendships actions
    end.

(** [processActionsForUser(btUser, actions)] *)
Definition processActionsForUser (btUser : BtUser) (actions : list Action)
    : M W unit :=
  if bool_decide (0 < length actions) then
    let sinkUids := map sink_uid actions in
    blockUnlessFollowing btUser sinkUids actions
  else ret tt.

(** The object Sequelize builds for a row it has found: a new action
    object with the row's attributes, its [status] among them. *)
Definition instantiate (row : ActionRow) : M W Action :=
  let action := {| action_id := row_id row; source_uid := row_source_uid row;
                   sink_uid := row_sink_uid row; action_type := row_type row |} in
  fun s => (action, Build_State (st_world s) (st_trace s)
                      (<[row_id row := row_status row]> (st_status s))).

Fixpoint instantiate_all (rows : list ActionRow) : M W (list Action) :=
  match rows with
  | [] => ret []
  | row :: rows' =>
      action <- instantiate row ;;
      actions <- instantiate_all rows' ;;
      ret (action :: actions)
  end.

(** [processActionsForUserId(uid)] *)
Definition processActionsForUserId (uid' : string) : M W unit :=
  r <- ask (BtUserFind uid') (btUser_find env uid') ;;
  match r with
  | inl err => logger_error [LStoreErr err]
  | inr None => logger_error [LStr "User not found"; LStr uid']
  | inr (Some btUser) =>
      r <- ask (GetActions (uid btUser) getActions_options)
               (btUser_getActions env btUser getActions_options) ;;
      match r with
      | inl err => logger_error [LStoreErr err]
      | inr None =>
          (* the account has a [screen_name], no [screen]: undefined *)
          logger_warn [LStr "No actions found for user"; LUndefined;
                       LStr (uid btUser)]
      | inr (Some rows) =>
          actions <- instantiate_all rows ;;
          processActionsForUser btUser actions
      end
  end.

End Engine.

(** ** What the store answers *)

(** The store is an SQL database behind Sequelize: it answers a query by
    WHERE, then GROUP BY, then ORDER BY, then LIMIT, over the rows of the
    table in the store's own order. *)
Definition holds (r : ActionRow) (c : Condition) : bool :=
  match c with
  | StatusIs s => bool_decide (row_status r = s)
  | TypeIs t => bool_decide (row_type r = t)
  | SourceIs u => bool_decide (row_source_uid r = u)
  end.

Definition sql_where (conds : list Condition) (rows : list ActionRow)
  : list ActionRow :=
  List.filter (fun r => forallb (holds r) conds) rows.

(** GROUP BY without an aggregate: one row for each distinct value of the
    column.  Which row stands for its group is up to the store; here it is
    the first one the store meets. *)
Fixpoint group_source_uid (seen : gset string) (rows : list ActionRow)
  : list ActionRow :=
  match rows with
  | [] => []
  | r :: rows' =>
      if decide (row_source_uid r ∈ seen) then group_source_uid seen rows'
      else r :: group_source_uid ({[row_source_uid r]} ∪ seen) rows'
  end.

Definition sql_group (g : option GroupColumn) (rows : list ActionRow)
  : list ActionRow :=
  match g with
  | Some GroupSourceUid => group_source_uid ∅ rows
  | None => rows
  end.

Definition updatedAt_le (r1 r2 : ActionRow) : Prop :=
  (row_updatedAt r1 ≤ row_updatedAt r2)%Z.

#[global] Instance updatedAt_le_dec r1 r2 : Decision (updatedAt_le r1 r2).
Proof. unfold updatedAt_le. apply _. Defined.

Definition sql_order (o : option OrderClause) (rows : list ActionRow)
  : list ActionRow :=
  match o with
  | Some UpdatedAtAsc => merge_sort updatedAt_le rows
  | None => rows
  end.

Definition findAll (options : FindOptions) (table : list ActionRow)
  : list ActionRow :=
  take (fo_limit options)
    (sql_order (fo_order options)
       (sql_group (fo_group options)
          (sql_where (fo_where options) table))).

(** Modelled from the spec: [btUser.getActions] is the accessor of the
    association between accounts and their actions, declared in
    [setup.js], which is not among the sources; by the spec it ranges over
    "that account's" actions, the rows whose [source_uid] is the
    account's [uid]. *)
Definition getActions (btUser : BtUser) (options : FindOptions)
    (table : list ActionRow) : list ActionRow :=
  findAll {| fo_where := SourceIs (uid btUser) :: fo_where options;
             fo_group := fo_group options;
             fo_order := fo_order options;
             fo_limit := fo_limit options |} table.

(** ** What the executor does, as seen from outside *)

Section Outcomes.
Context {W : Type} (env : Collaborators W).

(** The state in which [setActionStatus] hands over to [next]. *)
Definition after_save (action : Action) (newState : ActionStatus)
    (s : State W) : State W :=
  let (r, w') := action_save env action (Some newState) (st_world s) in
  Build_State w'
    (st_trace s ++ Save action (Some newState) ::
       match r with
       | Some err => [Log LvlError [LStoreErr err]]
       | None => []
       end)
    (<[action_id action := newState]> (st_status s)).

(** The action is moved to status [st] without a block write, and the
    continuation takes over. *)
Definition resolves_to (sourceBtUser : BtUser)
    (indexedFriendships : gmap string Friendship) (action : Action)
    (s : State W) (st : ActionStatus) : Prop :=
  ∃ s1 evs,
    (∀ next, processAction env sourceBtUser indexedFriendships action next s = next s1)
    ∧ st_status s1 = <[action_id action := st]> (st_status s)
    ∧ st_trace s1 = st_trace s ++ evs
    ∧ Save action (Some st) ∈ evs
    ∧ ∀ u t k, BlocksCreate u t k ∉ evs.

(** The block write is issued for the action; its callback then runs on
    the answer [r] of Twitter. *)
Definition attempts_block (sourceBtUser : BtUser)
    (indexedFriendships : gmap string Friendship) (action : Action)
    (s : State W) : Prop :=
  ∃ s0 r dbg,
    (∀ next, processAction env sourceBtUser indexedFriendships action next s =
             blocks_create_callback env sourceBtUser
               (indexedFriendships !! sink_uid action) action next r s0)
    ∧ twitter_blocks env (sink_uid action) (access_token sourceBtUser)
        (access_token_secret sourceBtUser) (st_world s) = (r, st_world s0)
    ∧ st_status s0 = st_status s
    ∧ st_trace s0 = st_trace s ++
        [Log LvlDebug dbg;
         BlocksCreate (sink_uid action) (access_token sourceBtUser)
           (access_token_secret sourceBtUser)].

End Outcomes.

(** ** The events of a batch *)

(** The event by which a step of the executor shows that it has decided
    an action: the save of a cancelling or deferring status, or the block
    write.  (The save of [DONE] follows a block write of the same step.) *)
Definition decision (e : Event) : option string :=
  match e with
  | BlocksCreate u _ _ => Some u
  | Save a (Some st) => if decide (st = DONE) then None else Some (sink_uid a)
  | _ => None
  end.

Definition decisions (evs : list Event) : list string := omap decision evs.

(** What an event of the executor can be, for a batch [actions]. *)
Definition event_ok (sourceBtUser : BtUser)
    (indexedFriendships : gmap string Friendship) (actions : list Action)
    (e : Event) : Prop :=
  match e with
  | Log _ _ => True
  | FriendshipsLookup _ _ _ | BtUserFind _ | GetActions _ _ => False
  | BlocksCreate u _ _ =>
      newState sourceBtUser (indexedFriendships !! u) u = None
      ∧ ∃ a, a ∈ actions ∧ sink_uid a = u
  | Save a st =>
      a ∈ actions ∧
      ∃ st', st = Some st' ∧
        (newState sourceBtUser (indexedFriendships !! sink_uid a) (sink_uid a)
           = Some st'
         ∨ (st' = DONE ∧
            newState sourceBtUser (indexedFriendships !! sink_uid a) (sink_uid a)
              = None))
  end.

Definition is_lookup (e : Event) : bool :=
  match e with
  | FriendshipsLookup _ _ _ => true
  | _ => false
  end.

Definition is_block_write (e : Event) : bool :=
  match e with
  | BlocksCreate _ _ _ => true
  | _ => false
  end.

(** ** Scenarios *)

(** The account [S] of the scenarios; it has un-blocked ["1005"] before. *)
Definition sample_user : BtUser :=
  {| uid := "1001"; bt_screen_name := "source";
     access_token := "token"; access_token_secret := "secret";
     unblockedUsers := [{| unblocked_sink_uid := "1005" |}] |}.

Definition sample_action (i : nat) (sink : string) : Action :=
  {| action_id := i; source_uid := "1001"; sink_uid := sink;
     action_type := "block" |}.

(** An answer of [friendships/lookup]: ["1002"] is followed, ["1003"] and
    ["1006"] are strangers, ["1004"] is both blocked and followed,
    ["1005"] is a stranger that was un-blocked, ["1001"] is the account
    itself.  ["1007"] is absent. *)
Definition sample_friendships : list Friendship :=
  [ {| id_str := "1002"; screen_name := "b"; connections := ["following"] |};
    {| id_str := "1003"; screen_name := "c"; connections := ["none"] |};
    {| id_str := "1004"; screen_name := "d";
       connections := ["blocking"; "following"] |};
    {| id_str := "1005"; screen_name := "e"; connections := ["none"] |};
    {| id_str := "1001"; screen_name := "source"; connections := ["none"] |};
    {| id_str := "1006"; screen_name := "f"; connections := ["none"] |} ].

Definition over_capacity : ApiError :=
  {| statusCode := 503; data := "Over capacity" |}.

(** The Actions table: three pending blocks of the account, the oldest
    last, one that is done, and a pending block of another account. *)
Definition sample_table : list ActionRow :=
  [ {| row_id := 1; row_source_uid := "1001"; row_sink_uid := "1003";
       row_type := "block"; row_status := PENDING; row_updatedAt := 30 |};
    {| row_id := 2; row_source_uid := "1001"; row_sink_uid := "1006";
       row_type := "block"; row_status := PENDING; row_updatedAt := 20 |};
    {| row_id := 3; row_source_uid := "1001"; row_sink_uid := "1002";
       row_type := "block"; row_status := DONE; row_updatedAt := 5 |};
    {| row_id := 4; row_source_uid := "2001"; row_sink_uid := "1003";
       row_type := "block"; row_status := PENDING; row_updatedAt := 1 |};
    {| row_id := 5; row_source_uid := "1001"; row_sink_uid := "1007";
       row_type := "block"; row_status := PENDING; row_updatedAt := 10 |} ].

(** Twitter and the database both answer. *)
Definition all_up : Collaborators unit :=
  {| twitter_friendships := fun _ _ _ w => (inr sample_friendships, w);
     twitter_blocks := fun u _ _ w =>
       (inr {| blocked_screen_name := "blocked"; blocked_id_str := u |}, w);
     action_save := fun _ _ w => (None, w);
     btUser_find := fun u w =>
       (inr (if decide (u = uid sample_user) then Some sample_user else None), w);
     btUser_getActions := fun u o w => (inr (Some (getActions u o sample_table)), w) |}.

(** The block endpoint answers with an error. *)
Definition blocks_down : Collaborators unit :=
  {| twitter_friendships := fun _ _ _ w => (inr sample_friendships, w);
     twitter_blocks := fun _ _ _ w => (inl over_capacity, w);
     action_save := fun _ _ w => (None, w);
     btUser_find := fun u w =>
       (inr (if decide (u = uid sample_user) then Some sample_user else None), w);
     btUser_getActions := fun u o w => (inr (Some (getActions u o sample_table)), w) |}.

(** The lookup endpoint answers with an error. *)
Definition lookup_down : Collaborators unit :=
  {| twitter_friendships := fun _ _ _ w => (inl over_capacity, w);
     twitter_blocks := fun u _ _ w =>
       (inr {| blocked_screen_name := "blocked"; blocked_id_str := u |}, w);
     action_save := fun _ _ w => (None, w);
     btUser_find := fun u w =>
       (inr (if decide (u = uid sample_user) then Some sample_user else None), w);
     btUser_getActions := fun u o w => (inr (Some (getActions u o sample_table)), w) |}.

(** A fresh pass: nothing traced yet, the given actions PENDING. *)
Definition pending_state (actions : list Action) : State unit :=
  Build_State tt []
    (foldr (fun a m => <[action_id a := PENDING]> m) ∅ actions).

Definition two_clear_actions : list Action :=
  [sample_action 1 "1003"; sample_action 2 "1006"].

Definition sample_index : gmap string Friendship :=
  indexBy_id_str sample_friendships.

(** ** Ingestion *)

(** The attributes [queueBlocks] hands to [Action.create]. *)
Record NewAction := {
  new_source_uid : string;
  new_sink_uid : string;
  new_type : string
}.

Inductive QueueEvent :=
  | ActionCreate (attrs : NewAction)
  | QueueLogError (err : string).

(** The synchronous part of [queueBlocks]: [list.map] calls
    [Action.create] for every element, in order, before any answer is
    in.  Each call is paired with what the store will answer to it
    ([Some err] fires the error handler). *)
Fixpoint create_all {W : Type} (action_create : NewAction → W → option string * W)
    (source_uid : string) (list' : list string) (w : W)
  : list (NewAction * option string) * W :=
  match list' with
  | [] => ([], w)
  | sink_uid :: rest =>
      let attrs := {| new_source_uid := source_uid; new_sink_uid := sink_uid;
                      new_type := "block" |} in
      let (r, w1) := action_create attrs w in
      let (answers, w2) := create_all action_create source_uid rest w1 in
      ((attrs, r) :: answers, w2)
  end.

(** [queueBlocks(source_uid, list)]: the calls, then the lines logged by
    the error handlers.  The handlers run as the answers come in; they
    are listed here in the order of their calls. *)
Definition queueBlocks {W : Type}
    (action_create : NewAction → W → option string * W)
    (source_uid : string) (list' : list string) (w : W)
  : list QueueEvent * W :=
  let (answers, w') := create_all action_create source_uid list' w in
  (map (fun p => ActionCreate p.1) answers
     ++ omap (fun p => QueueLogError <$> p.2) answers, w').

Definition is_create (e : QueueEvent) : bool :=
  match e with
  | ActionCreate _ => true
  | QueueLogError _ => false
  end.

(** ** The accounts of a pass *)

(** The success handler of [processBlocks]: [processActionsForUserId] is
    called with the [source_uid] of every row found, in order. *)
Definition processBlocks_uids (actions : list ActionRow) : list string :=
  map row_source_uid actions.

(** ** Vocabulary of the batch properties *)

(** The classifier finds no obstacle to blocking the action's sink. *)
Definition clear_for_block (sourceBtUser : BtUser)
    (indexedFriendships : gmap string Friendship) (action : Action) : bool :=
  bool_decide
    (newState sourceBtUser (indexedFriendships !! sink_uid action)
       (sink_uid action) = None).

(** The status an action has once its step has run to [next]: the one the
    classifier gives it, or [DONE] after the block write. *)
Definition settled_status (sourceBtUser : BtUser)
    (indexedFriendships : gmap string Friendship) (action : Action)
  : ActionStatus :=
  default DONE
    (newState sourceBtUser (indexedFriendships !! sink_uid action)
       (sink_uid action)).

(** The block write the executor issues for an action. *)
Definition write_of (sourceBtUser : BtUser) (action : Action) : Event :=
  BlocksCreate (sink_uid action) (access_token sourceBtUser)
    (access_token_secret sourceBtUser).

(** Twitter answers every block write with a result. *)
Definition blocks_never_fail {W : Type} (env : Collaborators W) : Prop :=
  ∀ u t k w, ∃ results w', twitter_blocks env u t k w = (inr results, w').

Definition is_twitter_call (e : Event) : bool :=
  is_lookup e || is_block_write e.

(** Twitter answers, every save fails. *)
Definition saves_down : Collaborators unit :=
  {| twitter_friendships := twitter_friendships all_up;
     twitter_blocks := twitter_blocks all_up;
     action_save := fun _ _ w => (Some "ER_LOCK_WAIT_TIMEOUT", w);
     btUser_find := btUser_find all_up;
     btUser_getActions := btUser_getActions all_up |}.

(** A batch with the same sink twice, a followed sink and a missing
    one. *)
Definition mixed_actions : list Action :=
  [sample_action 1 "1003"; sample_action 2 "1002"; sample_action 3 "1003";
   sample_action 4 "1007"].

(** A clear action in front of one whose sink is both blocked and
    followed. *)
Definition clear_then_both_tags : list Action :=
  [sample_action 1 "1003"; sample_action 2 "1004"].

(** A clear action in front of one whose sink the lookup answer does not
    mention. *)
Definition clear_then_absent : list Action :=
  [sample_action 1 "1003"; sample_action 2 "1007"].

(** An action whose sink id is the name of an inherited member. *)
Definition prototype_named_actions : list Action :=
  [sample_action 1 "constructor"].

(** * Properties *)

(** ** One step of the executor *)

Section OutcomeLemmas.
Context {W : Type} (env : Collaborators W).

Lemma setActionStatus_eq action newState next s :
  setActionStatus env action newState next s = next (after_save env action newState s).
Proof.
  unfold setActionStatus, after_save, bind, assign_status, save, ask,
    logger_error, emit; simpl.
  rewrite lookup_insert_eq.
  destruct (action_save env action (Some newState) (st_world s)) as [[err|] w'];
    simpl; [|done].
  by rewrite <- app_assoc.
Qed.

Lemma after_save_status action newState s :
  st_status (after_save env action newState s) =
  <[action_id action := newState]> (st_status s).
Proof.
  unfold after_save.
  by destruct (action_save env action (Some newState) (st_world s)) as [r w'].
Qed.

Lemma after_save_trace action newState s :
  ∃ evs, st_trace (after_save env action newState s) = st_trace s ++ evs
    ∧ Save action (Some newState) ∈ evs
    ∧ ∀ e, e ∈ evs → e = Save action (Some newState) ∨ ∃ err, e = Log LvlError [LStoreErr err].
Proof.
  unfold after_save.
  destruct (action_save env action (Some newState) (st_world s)) as [[err|] w'];
    simpl; eexists; (split; [reflexivity|]); split; try (left; fail).
  - intros e He. apply elem_of_cons in He as [->|He]; [by left|].
    apply list_elem_of_singleton in He as ->. right; eauto.
  - intros e He. apply list_elem_of_singleton in He as ->. by left.
Qed.

Lemma newState_Some_resolves sourceBtUser indexedFriendships action s st :
  newState sourceBtUser (indexedFriendships !! sink_uid action) (sink_uid action)
    = Some st →
  resolves_to env sourceBtUser indexedFriendships action s st.
Proof.
  intros Hst.
  destruct (after_save_trace action st s) as (evs & Htr & Hin & Honly).
  exists (after_save env action st s), evs. repeat split; trivial.
  - intros next. unfold processAction. rewrite Hst. apply setActionStatus_eq.
  - apply after_save_status.
  - intros u t k Hb. apply Honly in Hb as [Hb|[err Hb]]; discriminate.
Qed.

Lemma newState_None_attempts sourceBtUser indexedFriendships action s :
  newState sourceBtUser (indexedFriendships !! sink_uid action) (sink_uid action)
    = None →
  attempts_block env sourceBtUser indexedFriendships action s.
Proof.
  intros Hst. unfold attempts_block, processAction. rewrite Hst.
  unfold bind, logger_debug, emit, ask; simpl.
  destruct (twitter_blocks env (sink_uid action) (access_token sourceBtUser)
              (access_token_secret sourceBtUser) (st_world s)) as [r w'] eqn:Hr.
  eexists (Build_State w' _ (st_status s)), r, _. simpl.
  split; [intros next; reflexivity|]. split; [done|]. split; [done|].
  by rewrite <- app_assoc.
Qed.

End OutcomeLemmas.

Lemma event_ok_mono sourceBtUser indexedFriendships l1 l2 e :
  l1 ⊆ l2 →
  event_ok sourceBtUser indexedFriendships l1 e →
  event_ok sourceBtUser indexedFriendships l2 e.
Proof.
  intros Hsub. destruct e as [lvl args|u t k|u t k|a st|u|u o]; simpl; trivial.
  - intros [Hn (a & Ha & Hu)]. split; [done|]. exists a. split; [by apply Hsub|done].
  - intros [Ha Hst]. split; [by apply Hsub|done].
Qed.

Lemma newState_not_DONE sourceBtUser friendship sink :
  newState sourceBtUser friendship sink ≠ Some DONE.
Proof.
  unfold newState. destruct friendship as [f|]; [|done].
  repeat case_match; done.
Qed.

Section Steps.
Context {W : Type} (env : Collaborators W).
Context (sourceBtUser : BtUser) (indexedFriendships : gmap string Friendship).

#[local] Abbreviation run :=
  (blockUnlessFollowingWithFriendships env sourceBtUser indexedFriendships).
#[local] Abbreviation step := (processAction env sourceBtUser indexedFriendships).
#[local] Abbreviation state_of a :=
  (newState sourceBtUser (indexedFriendships !! sink_uid a) (sink_uid a)).

(** The error branch of the callback returns without calling [next]. *)
Lemma blocks_create_callback_error friendship action next err s :
  blocks_create_callback env sourceBtUser friendship action next (inl err) s =
  (tt, Build_State (st_world s)
         (st_trace s ++
            [Log LvlError [LStr "Error blocking: %j"; LApiErr err];
             Log LvlError
               [LStr "Error /blocks/create"; LStatus (statusCode err);
                LStr (bt_screen_name sourceBtUser); LStr (uid sourceBtUser);
                LStr "--block-->"; friendship_prop screen_name friendship;
                friendship_prop id_str friendship; LStr (data err)]])
         (st_status s)).
Proof.
  unfold blocks_create_callback, bind, logger_error, emit; simpl.
  by rewrite <- app_assoc.
Qed.

Lemma blocks_create_callback_success friendship action next results s :
  blocks_create_callback env sourceBtUser friendship action next (inr results) s =
  next (after_save env action DONE
          (Build_State (st_world s)
             (st_trace s ++
                [Log LvlInfo
                   [LStr "Blocked "; LStr (bt_screen_name sourceBtUser);
                    LStr (uid sourceBtUser); LStr "--block-->";
                    LStr (blocked_screen_name results);
                    LStr (blocked_id_str results)]])
             (st_status s))).
Proof.
  unfold blocks_create_callback, bind, logger_info, emit; simpl.
  by rewrite setActionStatus_eq.
Qed.

(** One step: it decides exactly one action, its events are those of that
    action, and it ends either by handing over to [next], once, or by
    returning without it, the statuses untouched. *)
Lemma step_spec action s :
  ∃ s1 evs,
    st_trace s1 = st_trace s ++ evs
    ∧ decisions evs = [sink_uid action]
    ∧ Forall (event_ok sourceBtUser indexedFriendships [action]) evs
    ∧ ((∀ next, step action next s = next s1)
         ∧ (∃ st, st_status s1 = <[action_id action := st]> (st_status s)
              ∧ (state_of action = Some st ∨ (st = DONE ∧ state_of action = None)))
       ∨ (∀ next, step action next s = (tt, s1))
         ∧ st_status s1 = st_status s ∧ state_of action = None).
Proof.
  destruct (state_of action) as [st|] eqn:Hst.
  - exists (after_save env action st s).
    unfold after_save.
    destruct (action_save env action (Some st) (st_world s)) as [r w'] eqn:Hsave.
    eexists. simpl. split; [reflexivity|].
    assert (st ≠ DONE) as Hnd.
    { intros ->. by apply newState_not_DONE in Hst. }
    split; [|split].
    + unfold decisions; simpl. rewrite decide_False by done. by destruct r.
    + apply Forall_cons. split.
      * simpl. split; [apply list_elem_of_singleton; done|]. exists st. split; [done|]. by left.
      * destruct r; repeat constructor.
    + left. split.
      * intros next. unfold processAction. rewrite Hst, setActionStatus_eq.
        unfold after_save. by rewrite Hsave.
      * exists st. split; [done|by left].
  - destruct (twitter_blocks env (sink_uid action) (access_token sourceBtUser)
                (access_token_secret sourceBtUser) (st_world s)) as [[err|results] w'] eqn:Hr.
    + eexists (Build_State w' _ (st_status s)), _. simpl.
      split; [|split; [|split; [|right; split; [|done]]]]; cycle 3.
      * intros next. unfold processAction. rewrite Hst.
        unfold bind at 1. unfold logger_debug, emit. unfold bind at 1. unfold ask. simpl.
        rewrite Hr. rewrite blocks_create_callback_error. simpl.
        rewrite <- !app_assoc. reflexivity.
      * simpl. reflexivity.
      * reflexivity.
      * repeat constructor; simpl; trivial. exists action. split; [apply list_elem_of_singleton|]; done.
    + destruct (action_save env action (Some DONE) w') as [r w''] eqn:Hsave.
      eexists (Build_State w'' _ (<[action_id action := DONE]> (st_status s))), _.
      simpl. split; [|split; [|split; [|left; split]]]; cycle 3.
      * intros next. unfold processAction. rewrite Hst.
        unfold bind at 1. unfold logger_debug, emit. unfold bind at 1. unfold ask. simpl.
        rewrite Hr. rewrite blocks_create_callback_success.
        unfold after_save. simpl. rewrite Hsave.
        rewrite <- !app_assoc. simpl. reflexivity.
      * exists DONE. split; [done|by right].
      * reflexivity.
      * unfold decisions; simpl. by destruct r.
      * repeat (apply Forall_cons; split); simpl; trivial.
        -- split; [done|]. exists action. split; [apply list_elem_of_singleton|]; done.
        -- split; [apply list_elem_of_singleton; done|]. exists DONE. split; [done|]. by right.
        -- destruct r; repeat constructor.
Qed.

(** The whole batch: the actions decided are a prefix of the batch, in
    order; every event belongs to an action of the batch; a status is
    either untouched or the one decided for an action with that
    identity. *)
Lemma run_spec actions s :
  ∃ evs k,
    st_trace (run actions s).2 = st_trace s ++ evs
    ∧ k ≤ length actions
    ∧ decisions evs = map sink_uid (take k actions)
    ∧ Forall (event_ok sourceBtUser indexedFriendships actions) evs
    ∧ ∀ i, st_status (run actions s).2 !! i = st_status s !! i
           ∨ ∃ a st, a ∈ actions ∧ action_id a = i
               ∧ st_status (run actions s).2 !! i = Some st
               ∧ (state_of a = Some st ∨ (st = DONE ∧ state_of a = None)).
Proof.
  revert s. induction actions as [|action rest IH]; intros s.
  - exists [], 0. simpl. rewrite app_nil_r. repeat split; auto.
  - destruct (step_spec action s) as (s1 & evs1 & Htr & Hdec & Hok & Hend).
    simpl blockUnlessFollowingWithFriendships.
    destruct Hend as [[Hnext (st & Hstatus & Hst)]|[Hstop [Hstatus Hst]]].
    + rewrite Hnext.
      destruct (IH s1) as (evs2 & k & Htr2 & Hk & Hdec2 & Hok2 & Hinv).
      exists (evs1 ++ evs2), (S k). split; [|split; [|split; [|split]]].
      * rewrite Htr2, Htr. by rewrite app_assoc.
      * simpl. lia.
      * unfold decisions in *. rewrite omap_app, Hdec, Hdec2. reflexivity.
      * apply Forall_app. split.
        -- eapply Forall_impl; [exact Hok|]. intros e. apply event_ok_mono.
           intros x Hx. apply list_elem_of_singleton in Hx as ->. left.
        -- eapply Forall_impl; [exact Hok2|]. intros e. apply event_ok_mono.
           intros x Hx. by right.
      * intros i. destruct (Hinv i) as [Heq|(a & st' & Ha & Hid & Hlk & Hdecided)].
        -- rewrite Heq, Hstatus.
           destruct (decide (action_id action = i)) as [<-|Hne].
           ++ right. exists action, st. rewrite lookup_insert_eq.
              split; [left|]. done.
           ++ left. by rewrite lookup_insert_ne.
        -- right. exists a, st'. split; [by right|done].
    + rewrite Hstop. exists evs1, 1. simpl. split; [done|]. split; [lia|].
      split; [by rewrite ?take_0|]. split.
      * eapply Forall_impl; [exact Hok|]. intros e. apply event_ok_mono.
        intros x Hx. apply list_elem_of_singleton in Hx as ->. left.
      * intros i. left. by rewrite Hstatus.
Qed.

End Steps.

(** ** The status writer *)

(** C6.  [setActionStatus(action, newState, next)] assigns the status,
    then saves the action (the save sees the new status), and hands over
    to [next] exactly once in either case: on a failed save after logging
    the error, on a successful one directly.  The state [s1] in which
    [next] starts does not depend on [next], and the result of the whole
    call is the result of that one run of [next]; with a continuation that
    only leaves a mark, the mark is there once, and last. *)
Theorem setActionStatus_calls_next_exactly_once
    {W : Type} (env : Collaborators W) (action : Action)
    (newState : ActionStatus) (s : State W) :
  ∃ s1 r,
    (∀ next, setActionStatus env action newState next s = next s1)
    ∧ st_status s1 = <[action_id action := newState]> (st_status s)
    ∧ action_save env action (Some newState) (st_world s) = (r, st_world s1)
    ∧ st_trace s1 =
        st_trace s ++ Save action (Some newState) ::
          match r with
          | Some err => [Log LvlError [LStoreErr err]]
          | None => []
          end
    ∧ ∀ mark, st_trace (setActionStatus env action newState (emit mark) s).2
              = st_trace s1 ++ [mark].
Proof.
  exists (after_save env action newState s).
  pose proof (fun next => setActionStatus_eq env action newState next s) as Heq.
  unfold after_save in *.
  destruct (action_save env action (Some newState) (st_world s)) as [r w'].
  exists r. split; [intros next; apply Heq|]. repeat split.
  intros mark. by rewrite Heq.
Qed.

(** ** The classifier *)

Section Classifier.
Context {W : Type} (env : Collaborators W).
Context (sourceBtUser : BtUser) (indexedFriendships : gmap string Friendship).

Lemma contains_true l x : x ∈ l → contains l x = true.
Proof. intros. unfold contains. by apply bool_decide_eq_true_2. Qed.

Lemma contains_false l x : x ∉ l → contains l x = false.
Proof. intros. unfold contains. by apply bool_decide_eq_false_2. Qed.

Lemma find_unblocked_Some l sink :
  (∃ u, u ∈ l ∧ unblocked_sink_uid u = sink) ↔ is_Some (find_unblocked l sink).
Proof.
  unfold find_unblocked. split.
  - intros (u & Hu & Heq).
    destruct (List.find _ l) as [v|] eqn:Hf; [by eexists|].
    apply list_elem_of_In in Hu.
    apply (find_none _ _ Hf) in Hu. by rewrite bool_decide_eq_false in Hu.
  - intros [u Hf]. apply find_some in Hf as [Hin Heq].
    exists u. split; [by apply list_elem_of_In|].
    by apply bool_decide_eq_true in Heq.
Qed.

Lemma resolves_to_unique action s st1 st2 :
  resolves_to env sourceBtUser indexedFriendships action s st1 →
  resolves_to env sourceBtUser indexedFriendships action s st2 →
  st1 = st2.
Proof.
  intros (s1 & evs1 & H1 & Hst1 & _) (s2 & evs2 & H2 & Hst2 & _).
  specialize (H1 (ret tt)). specialize (H2 (ret tt)).
  rewrite H1 in H2. unfold ret in H2. injection H2 as <-.
  rewrite Hst1 in Hst2.
  apply (f_equal (fun m => m !! action_id action)) in Hst2.
  rewrite !lookup_insert_eq in Hst2. congruence.
Qed.

Lemma blocks_create_callback_trace friendship action r s :
  ∃ evs, st_trace (blocks_create_callback env sourceBtUser friendship action
                     (ret tt) r s).2 = st_trace s ++ evs.
Proof.
  destruct r as [err|results].
  - rewrite blocks_create_callback_error. simpl. eauto.
  - rewrite blocks_create_callback_success. unfold ret. simpl.
    destruct (after_save_trace env action DONE
                (Build_State (st_world s)
                   (st_trace s ++
                      [Log LvlInfo
                         [LStr "Blocked "; LStr (bt_screen_name sourceBtUser);
                          LStr (uid sourceBtUser); LStr "--block-->";
                          LStr (blocked_screen_name results);
                          LStr (blocked_id_str results)]])
                   (st_status s))) as (evs & Htr & _).
    rewrite Htr. simpl. rewrite <- app_assoc. eauto.
Qed.

Lemma resolves_to_not_attempts action s st :
  resolves_to env sourceBtUser indexedFriendships action s st →
  ¬ attempts_block env sourceBtUser indexedFriendships action s.
Proof.
  intros (s1 & evs & H1 & _ & Htr & _ & Hnb) (s0 & r & dbg & H2 & _ & _ & Htr0).
  specialize (H1 (ret tt)). specialize (H2 (ret tt)).
  destruct (blocks_create_callback_trace
              (indexedFriendships !! sink_uid action) action r s0) as [evs' Hcb].
  rewrite <- H2, H1 in Hcb. unfold ret in Hcb. simpl in Hcb.
  rewrite Htr, Htr0, <- app_assoc in Hcb. apply app_inv_head in Hcb.
  eapply Hnb. rewrite Hcb. right. left.
Qed.

End Classifier.

(** X16.  The step that takes an action up decides it by the first rule
    that matches, in this order: no relationship entry for the sink, then
    the tag "blocking", then the tag "following", then the sink in the
    account's suppression list, then source equal to sink; when none
    matches the block write is issued.  So the step for an action whose
    relationship carries both "blocking" and "following" makes it
    CANCELLED_DUPLICATE and not CANCELLED_FOLLOWING.  The outcome of a
    step is unique: it resolves to at most one status, and it does not
    both resolve and write. *)
Theorem classifier_first_match_wins
    {W : Type} (env : Collaborators W) (sourceBtUser : BtUser)
    (indexedFriendships : gmap string Friendship) (action : Action)
    (s : State W) :
  let sink := sink_uid action in
  let resolves := resolves_to env sourceBtUser indexedFriendships action s in
  let suppressed :=
    ∃ u, u ∈ unblockedUsers sourceBtUser ∧ unblocked_sink_uid u = sink in
  (indexedFriendships !! sink = None → resolves DEFERRED_TARGET_SUSPENDED)
  ∧ (∀ f, indexedFriendships !! sink = Some f →
       ("blocking" ∈ connections f → resolves CANCELLED_DUPLICATE)
       ∧ ("blocking" ∉ connections f → "following" ∈ connections f →
            resolves CANCELLED_FOLLOWING)
       ∧ ("blocking" ∉ connections f → "following" ∉ connections f →
            suppressed → resolves CANCELLED_UNBLOCKED)
       ∧ ("blocking" ∉ connections f → "following" ∉ connections f →
            ¬ suppressed → uid sourceBtUser = sink → resolves CANCELLED_SELF)
       ∧ ("blocking" ∉ connections f → "following" ∉ connections f →
            ¬ suppressed → uid sourceBtUser ≠ sink →
            attempts_block env sourceBtUser indexedFriendships action s)
       ∧ ("blocking" ∈ connections f → "following" ∈ connections f →
            resolves CANCELLED_DUPLICATE ∧ ¬ resolves CANCELLED_FOLLOWING))
  ∧ (∀ st1 st2, resolves st1 → resolves st2 → st1 = st2)
  ∧ (∀ st, resolves st →
       ¬ attempts_block env sourceBtUser indexedFriendships action s)
  ∧ ((∃ st, resolves st)
     ∨ attempts_block env sourceBtUser indexedFriendships action s).
Proof.
  intros sink resolves suppressed.
  assert (∀ f, indexedFriendships !! sink = Some f → "blocking" ∈ connections f →
               resolves CANCELLED_DUPLICATE) as Hdup.
  { intros f Hf Hb. apply newState_Some_resolves. fold sink. rewrite Hf.
    unfold newState. by rewrite contains_true. }
  split; [|split; [|split; [|split]]].
  - intros Hf. apply newState_Some_resolves. fold sink. by rewrite Hf.
  - intros f Hf. split; [|split; [|split; [|split; [|split]]]].
    + by apply (Hdup f).
    + intros Hnb Hfo. apply newState_Some_resolves. fold sink. rewrite Hf.
      unfold newState. rewrite (contains_false _ "blocking") by done.
      by rewrite contains_true.
    + intros Hnb Hnf Hsup. apply newState_Some_resolves. fold sink. rewrite Hf.
      unfold newState. rewrite !contains_false by done.
      apply find_unblocked_Some in Hsup as [u ->]. done.
    + intros Hnb Hnf Hsup Hself. apply newState_Some_resolves. fold sink.
      rewrite Hf. unfold newState. rewrite !contains_false by done.
      destruct (find_unblocked _ sink) as [u|] eqn:Hfu.
      { exfalso. apply Hsup. apply find_unblocked_Some. by eexists. }
      by rewrite bool_decide_eq_true_2.
    + intros Hnb Hnf Hsup Hself. apply newState_None_attempts. fold sink.
      rewrite Hf. unfold newState. rewrite !contains_false by done.
      destruct (find_unblocked _ sink) as [u|] eqn:Hfu.
      { exfalso. apply Hsup. apply find_unblocked_Some. by eexists. }
      by rewrite bool_decide_eq_false_2.
    + intros Hb _. split; [by apply (Hdup f)|]. intros Hfo.
      by pose proof (resolves_to_unique env _ _ _ _ _ _ (Hdup f Hf Hb) Hfo).
  - apply resolves_to_unique.
  - apply resolves_to_not_attempts.
  - destruct (newState sourceBtUser (indexedFriendships !! sink) sink) as [st|] eqn:Hst.
    + left. exists st. by apply newState_Some_resolves.
    + right. by apply newState_None_attempts.
Qed.

(** ** Laws of the outcomes *)

Section Laws.
Context {W : Type} (env : Collaborators W).
Context (sourceBtUser : BtUser) (indexedFriendships : gmap string Friendship).

#[local] Abbreviation run :=
  (blockUnlessFollowingWithFriendships env sourceBtUser indexedFriendships).

(** Whatever a batch appends to the trace passes [event_ok]. *)
Lemma run_events actions s evs :
  st_trace (run actions s).2 = st_trace s ++ evs →
  Forall (event_ok sourceBtUser indexedFriendships actions) evs.
Proof.
  intros Htr.
  destruct (run_spec env sourceBtUser indexedFriendships actions s)
    as (evs' & k & Htr' & _ & _ & Hok & _).
  rewrite Htr in Htr'. by apply app_inv_head in Htr' as ->.
Qed.

(** No batch writes a block for a sink that the classifier does not
    clear. *)
Lemma run_no_block_unless_clear actions s evs sink t k :
  newState sourceBtUser (indexedFriendships !! sink) sink ≠ None →
  st_trace (run actions s).2 = st_trace s ++ evs →
  BlocksCreate sink t k ∉ evs.
Proof.
  intros Hns Htr Hin. apply run_events in Htr.
  rewrite Forall_forall in Htr. apply Htr in Hin. simpl in Hin. tauto.
Qed.

Lemma newState_self friendship sink :
  uid sourceBtUser = sink →
  ∃ st, newState sourceBtUser friendship sink = Some st
        ∧ st ∈ [DEFERRED_TARGET_SUSPENDED; CANCELLED_DUPLICATE;
                CANCELLED_FOLLOWING; CANCELLED_UNBLOCKED; CANCELLED_SELF].
Proof.
  intros Hself. unfold newState. destruct friendship as [f|].
  - rewrite (bool_decide_eq_true_2 _ Hself).
    repeat case_match; eexists; (split; [reflexivity|]); set_solver.
  - eexists; split; [reflexivity|]. set_solver.
Qed.

End Laws.

(** X17.  When the lookup of the sink in the relationship index yields
    nothing, the step that takes the action up moves it to
    DEFERRED_TARGET_SUSPENDED, saves the status and hands over to the
    continuation, with no block write in between; and no batch run
    against that index ever issues a block write for that sink. *)
Theorem missing_friendship_defers
    {W : Type} (env : Collaborators W) (sourceBtUser : BtUser)
    (indexedFriendships : gmap string Friendship) (action : Action)
    (s : State W) :
  indexedFriendships !! sink_uid action = None →
  resolves_to env sourceBtUser indexedFriendships action s
    DEFERRED_TARGET_SUSPENDED
  ∧ ∀ actions s0 evs t k,
      st_trace (blockUnlessFollowingWithFriendships env sourceBtUser
                  indexedFriendships actions s0).2 = st_trace s0 ++ evs →
      BlocksCreate (sink_uid action) t k ∉ evs.
Proof.
  intros Hnone. split.
  - apply newState_Some_resolves. by rewrite Hnone.
  - intros actions s0 evs t k. apply run_no_block_unless_clear.
    by rewrite Hnone.
Qed.

(** C7.  An action of the account whose sink is the account itself never
    becomes DONE: whatever the relationship map and the suppression list,
    the executor moves it to one of the deferred or cancelled statuses
    without a block write; no batch run for the account issues a block
    write for the account's own id or saves such an action as DONE; and
    across a whole batch the status of such an action, if it was not DONE
    before, is not DONE after. *)
Theorem self_block_never_done
    {W : Type} (env : Collaborators W) (sourceBtUser : BtUser)
    (indexedFriendships : gmap string Friendship) (action : Action)
    (s : State W) :
  source_uid action = uid sourceBtUser →
  source_uid action = sink_uid action →
  (∃ st, st ∈ [DEFERRED_TARGET_SUSPENDED; CANCELLED_DUPLICATE;
               CANCELLED_FOLLOWING; CANCELLED_UNBLOCKED; CANCELLED_SELF]
         ∧ st ≠ DONE
         ∧ resolves_to env sourceBtUser indexedFriendships action s st)
  ∧ (∀ actions s0 evs,
       st_trace (blockUnlessFollowingWithFriendships env sourceBtUser
                   indexedFriendships actions s0).2 = st_trace s0 ++ evs →
       (∀ t k, BlocksCreate (sink_uid action) t k ∉ evs)
       ∧ Save action (Some DONE) ∉ evs)
  ∧ (∀ actions s0,
       (∀ b, b ∈ actions → action_id b = action_id action →
             sink_uid b = sink_uid action) →
       st_status s0 !! action_id action ≠ Some DONE →
       st_status (blockUnlessFollowingWithFriendships env sourceBtUser
                    indexedFriendships actions s0).2 !! action_id action
         ≠ Some DONE).
Proof.
  intros Hsrc Hself.
  assert (uid sourceBtUser = sink_uid action) as Hu by congruence.
  destruct (newState_self sourceBtUser
              (indexedFriendships !! sink_uid action) _ Hu) as (st & Hst & Hin).
  split; [|split].
  - exists st. split; [done|]. split.
    + intros ->. by apply newState_not_DONE in Hst.
    + by apply newState_Some_resolves.
  - intros actions s0 evs Htr. split.
    + intros t k. eapply run_no_block_unless_clear; [|exact Htr]. by rewrite Hst.
    + intros Hsave. apply run_events in Htr.
      rewrite Forall_forall in Htr. apply Htr in Hsave. simpl in Hsave.
      destruct Hsave as (_ & st' & [= <-] & [Hd|[_ Hd]]).
      * by apply newState_not_DONE in Hd.
      * congruence.
  - intros actions s0 Hsame Hnd.
    destruct (run_spec env sourceBtUser indexedFriendships actions s0)
      as (_ & _ & _ & _ & _ & _ & Hinv).
    destruct (Hinv (action_id action)) as [Heq|(b & st' & Hb & Hid & Hlk & Hdec)].
    + by rewrite Heq.
    + rewrite Hlk. intros [= ->].
      rewrite (Hsame b Hb Hid) in Hdec. destruct Hdec as [Hd|[_ Hd]].
      * by apply newState_not_DONE in Hd.
      * congruence.
Qed.

(** ** The relationship validator *)

Lemma event_ok_no_lookup sourceBtUser indexedFriendships actions evs :
  Forall (event_ok sourceBtUser indexedFriendships actions) evs →
  List.filter is_lookup evs = [].
Proof.
  induction 1 as [|e evs He _ IH]; [done|].
  simpl. rewrite IH. by destruct e.
Qed.

Section Validator.
Context {W : Type} (env : Collaborators W).
Context (sourceBtUser : BtUser) (sinkUids : list string) (actions : list Action).

(** The state in which the callback of [friendships/lookup] starts. *)
Lemma validator_small s :
  length sinkUids ≤ 100 →
  ∃ r w',
    twitter_friendships env (String.concat "," sinkUids)
      (access_token sourceBtUser) (access_token_secret sourceBtUser)
      (st_world s) = (r, w')
    ∧ let s0 :=
        Build_State w'
          (st_trace s ++
             [Log LvlDebug [LStr "Checking follow status"; LStr (uid sourceBtUser);
                            LStr "--???-->"; LNum (length sinkUids); LStr "users"];
              FriendshipsLookup (String.concat "," sinkUids)
                (access_token sourceBtUser) (access_token_secret sourceBtUser)])
          (st_status s) in
      blockUnlessFollowing env sourceBtUser sinkUids actions s =
      match r with
      | inl err =>
          (tt, Build_State w'
                 (st_trace s0 ++
                    [Log LvlError [LStr "Error /friendships/lookup";
                                   LStatus (statusCode err); LStr "for";
                                   LStr (bt_screen_name sourceBtUser);
                                   LStr (data err)]])
                 (st_status s))
      | inr friendships =>
          blockUnlessFollowingWithFriendships env sourceBtUser
            (indexBy_id_str friendships) actions s0
      end.
Proof.
  intros Hlen. unfold blockUnlessFollowing.
  rewrite bool_decide_eq_false_2 by lia.
  unfold bind at 1. unfold logger_debug, emit. unfold bind at 1. unfold ask. simpl.
  destruct (twitter_friendships env (String.concat "," sinkUids)
              (access_token sourceBtUser) (access_token_secret sourceBtUser)
              (st_world s)) as [r w'].
  exists r, w'. split; [done|]. simpl.
  rewrite <- !app_assoc. simpl. by destruct r.
Qed.

End Validator.

(** C3.  Called with more than a hundred sink ids, the validator logs an
    error and does nothing else: no lookup, no write, no partial batch.
    Called with a hundred (or fewer), it issues exactly one bulk lookup. *)
Theorem validator_batch_size_contract
    {W : Type} (env : Collaborators W) (sourceBtUser : BtUser)
    (sinkUids : list string) (actions : list Action) (s : State W) :
  (100 < length sinkUids →
     blockUnlessFollowing env sourceBtUser sinkUids actions s =
     (tt, Build_State (st_world s)
            (st_trace s ++
               [Log LvlError [LStr "No more than 100 sinkUids allowed. Given";
                              LNum (length sinkUids)]])
            (st_status s)))
  ∧ (length sinkUids ≤ 100 →
     ∃ evs,
       st_trace (blockUnlessFollowing env sourceBtUser sinkUids actions s).2
         = st_trace s ++ evs
       ∧ length (List.filter is_lookup evs) = 1).
Proof.
  split.
  - intros Hlen. unfold blockUnlessFollowing.
    by rewrite bool_decide_eq_true_2 by lia.
  - intros Hlen.
    destruct (validator_small env sourceBtUser sinkUids actions s Hlen)
      as (r & w' & _ & Heq).
    simpl in Heq. rewrite Heq. destruct r as [err|friendships].
    + simpl. rewrite <- app_assoc. eexists. split; [reflexivity|]. done.
    + match goal with
      | |- context [blockUnlessFollowingWithFriendships env ?u ?idx ?l ?s0] =>
          destruct (run_spec env u idx l s0) as (evs & _ & Htr & _ & _ & Hok & _)
      end.
      rewrite Htr. simpl. rewrite <- app_assoc. eexists. split; [reflexivity|].
      simpl. by rewrite (event_ok_no_lookup _ _ _ _ Hok).
Qed.

(** C5.  When the bulk lookup of a batch fails, the error is logged with
    its status code and payload, and that is all: nothing is classified,
    saved or written, and every status is what it was, so the actions
    that were PENDING still are. *)
Theorem lookup_failure_skips_batch
    {W : Type} (env : Collaborators W) (sourceBtUser : BtUser)
    (sinkUids : list string) (actions : list Action) (s : State W)
    (err : ApiError) (w' : W) :
  length sinkUids ≤ 100 →
  twitter_friendships env (String.concat "," sinkUids)
    (access_token sourceBtUser) (access_token_secret sourceBtUser)
    (st_world s) = (inl err, w') →
  let s' := (blockUnlessFollowing env sourceBtUser sinkUids actions s).2 in
  st_trace s' =
    st_trace s ++
      [Log LvlDebug [LStr "Checking follow status"; LStr (uid sourceBtUser);
                     LStr "--???-->"; LNum (length sinkUids); LStr "users"];
       FriendshipsLookup (String.concat "," sinkUids)
         (access_token sourceBtUser) (access_token_secret sourceBtUser);
       Log LvlError [LStr "Error /friendships/lookup"; LStatus (statusCode err);
                     LStr "for"; LStr (bt_screen_name sourceBtUser);
                     LStr (data err)]]
  ∧ st_status s' = st_status s
  ∧ ∀ a, a ∈ actions →
      st_status s !! action_id a = Some PENDING →
      st_status s' !! action_id a = Some PENDING.
Proof.
  intros Hlen Herr s'.
  destruct (validator_small env sourceBtUser sinkUids actions s Hlen)
    as (r & w'' & Hr & Heq).
  rewrite Herr in Hr. injection Hr as <- <-.
  simpl in Heq. subst s'. rewrite Heq. simpl.
  rewrite <- app_assoc. simpl. done.
Qed.

(** ** Termination of the executor *)

(** C9.  The executor is total and every run is finite.  On an empty or
    null list it returns at once, touching nothing.  On a non-empty list
    it runs the step for the first action with, as continuation, itself on
    the tail of the list; the step either hands over to that continuation
    once, as its last act, or returns without it.  Hence a batch of [n]
    actions takes at most [n] steps: the sinks decided, in the order of
    the trace, are those of the first [k] actions of the batch for some
    [k ≤ n], one decision for each position. *)
Theorem executor_terminates
    {W : Type} (env : Collaborators W) (sourceBtUser : BtUser)
    (indexedFriendships : gmap string Friendship) :
  let run := blockUnlessFollowingWithFriendships env sourceBtUser
               indexedFriendships in
  (∀ s, run [] s = (tt, s))
  ∧ (∀ s, blockUnlessFollowingWithFriendships_nullable env sourceBtUser
            indexedFriendships None s = (tt, s))
  ∧ (∀ actions s,
       blockUnlessFollowingWithFriendships_nullable env sourceBtUser
         indexedFriendships (Some actions) s = run actions s)
  ∧ (∀ action rest s,
       run (action :: rest) s =
       processAction env sourceBtUser indexedFriendships action (run rest) s
       ∧ length rest < length (action :: rest))
  ∧ (∀ action s, ∃ s1,
       (∀ next, processAction env sourceBtUser indexedFriendships action next s
                = next s1)
       ∨ (∀ next, processAction env sourceBtUser indexedFriendships action next s
                  = (tt, s1)))
  ∧ (∀ actions s, ∃ s' evs k,
       run actions s = (tt, s')
       ∧ st_trace s' = st_trace s ++ evs
       ∧ k ≤ length actions
       ∧ decisions evs = map sink_uid (take k actions)).
Proof.
  intros run. repeat split.
  - simpl. lia.
  - intros action s.
    destruct (step_spec env sourceBtUser indexedFriendships action s)
      as (s1 & _ & _ & _ & _ & [[H _]|[H _]]); exists s1; [by left|by right].
  - intros actions s.
    destruct (run_spec env sourceBtUser indexedFriendships actions s)
      as (evs & k & Htr & Hk & Hdec & _).
    exists (run actions s).2, evs, k. split; [|done].
    by destruct (run actions s) as [[] s'].
Qed.

(** ** Empty batches *)

(** C10.  For an empty list of pending actions [processActionsForUser]
    does nothing at all: no log line, no lookup, no write, no save.  The
    validator, and with it every call to Twitter, is reached only with a
    batch of at least one action, and then with one sink id for each
    action.  So when the store finds the account and no pending action of
    it, [processActionsForUserId] ends after its two queries to the store,
    with no call to Twitter. *)
Theorem empty_batch_makes_no_call
    {W : Type} (env : Collaborators W) (btUser : BtUser) (s : State W) :
  processActionsForUser env btUser [] s = (tt, s)
  ∧ (∀ actions,
       0 < length actions →
       processActionsForUser env btUser actions s =
       blockUnlessFollowing env btUser (map sink_uid actions) actions s)
  ∧ (∀ uid' w1 w2,
       btUser_find env uid' (st_world s) = (inr (Some btUser), w1) →
       btUser_getActions env btUser getActions_options w1 = (inr (Some []), w2) →
       processActionsForUserId env uid' s =
       (tt, Build_State w2
              (st_trace s ++
                 [BtUserFind uid'; GetActions (uid btUser) getActions_options])
              (st_status s))).
Proof.
  split; [done|]. split.
  - intros actions Hlen. unfold processActionsForUser.
    by rewrite bool_decide_eq_true_2.
  - intros uid' w1 w2 Hfind Hget. unfold processActionsForUserId.
    unfold bind at 1. unfold ask at 1. rewrite Hfind.
    unfold bind at 1. unfold ask at 1. simpl. rewrite Hget. simpl.
    by rewrite <- app_assoc.
Qed.

(** ** A failing block write *)

(** X1.  When Twitter answers the block write with an error, the step logs it
    twice and returns: the status is not assigned, nothing is saved, and
    [next] is dropped. *)
Lemma block_write_failure_drops_next
    {W : Type} (env : Collaborators W) (sourceBtUser : BtUser)
    (indexedFriendships : gmap string Friendship) (action : Action)
    (s : State W) (err : ApiError) (w' : W) :
  newState sourceBtUser (indexedFriendships !! sink_uid action) (sink_uid action)
    = None →
  twitter_blocks env (sink_uid action) (access_token sourceBtUser)
    (access_token_secret sourceBtUser) (st_world s) = (inl err, w') →
  ∃ s1 dbg e1 e2,
    (∀ next, processAction env sourceBtUser indexedFriendships action next s
             = (tt, s1))
    ∧ st_status s1 = st_status s
    ∧ st_trace s1 =
        st_trace s ++
          [Log LvlDebug dbg;
           BlocksCreate (sink_uid action) (access_token sourceBtUser)
             (access_token_secret sourceBtUser);
           Log LvlError e1; Log LvlError e2].
Proof.
  intros Hst Herr.
  destruct (newState_None_attempts env sourceBtUser indexedFriendships action s Hst)
    as (s0 & r & dbg & Hstep & Hr & Hstatus & Htr).
  rewrite Herr in Hr. injection Hr as <- Hw.
  eexists _, dbg, _, _. split; [|split].
  - intros next. rewrite Hstep. apply blocks_create_callback_error.
  - simpl. done.
  - simpl. rewrite Htr, <- app_assoc. reflexivity.
Qed.

(** C1.  The write of a block fails for the first of two actions that are
    both clear for blocking.  The first action stays PENDING and the error
    is logged, but the run ends there: the callback's error branch never
    calls [next], so the second action is not taken up in this pass: no
    decision, no block write and no save for it, and it stays PENDING.
    With the endpoint up, the same batch blocks both. *)
Theorem block_write_failure_stalls_batch :
  let s := pending_state two_clear_actions in
  let s' := (blockUnlessFollowingWithFriendships blocks_down sample_user
               sample_index two_clear_actions s).2 in
  let s_up := (blockUnlessFollowingWithFriendships all_up sample_user
                 sample_index two_clear_actions s).2 in
  st_trace s' =
    [Log LvlDebug [LStr "Creating block"; LStr "source"; LStr "--block-->";
                   LStr "c"; LStr "1003"];
     BlocksCreate "1003" "token" "secret";
     Log LvlError [LStr "Error blocking: %j"; LApiErr over_capacity];
     Log LvlError [LStr "Error /blocks/create"; LStatus 503; LStr "source";
                   LStr "1001"; LStr "--block-->"; LStr "c"; LStr "1003";
                   LStr "Over capacity"]]
  ∧ st_status s' !! 1 = Some PENDING
  ∧ newState sample_user (sample_index !! "1006") "1006" = None
  ∧ decisions (st_trace s') = ["1003"]
  ∧ st_status s' !! 2 = Some PENDING
  ∧ decisions (st_trace s_up) = ["1003"; "1006"]
  ∧ st_status s_up !! 2 = Some DONE.
Proof. vm_compute. repeat split. Qed.

(** C2.  The write of a block fails for a clear action that stands in the
    batch before an action whose sink is both blocked and followed.  The
    classifier would make the second action CANCELLED_DUPLICATE, and with
    the endpoint up the batch does; but the callback's error branch never
    calls [next], so the run ends with the first action: the second gets
    no outcome at all in this pass, no decision and no save, and stays
    PENDING. *)
Theorem both_tags_behind_failed_write_gets_no_outcome :
  let s := pending_state clear_then_both_tags in
  let s' := (blockUnlessFollowingWithFriendships blocks_down sample_user
               sample_index clear_then_both_tags s).2 in
  let s_up := (blockUnlessFollowingWithFriendships all_up sample_user
                 sample_index clear_then_both_tags s).2 in
  connections <$> sample_index !! "1004" = Some ["blocking"; "following"]
  ∧ newState sample_user (sample_index !! "1004") "1004"
    = Some CANCELLED_DUPLICATE
  ∧ st_trace s' =
      [Log LvlDebug [LStr "Creating block"; LStr "source"; LStr "--block-->";
                     LStr "c"; LStr "1003"];
       BlocksCreate "1003" "token" "secret";
       Log LvlError [LStr "Error blocking: %j"; LApiErr over_capacity];
       Log LvlError [LStr "Error /blocks/create"; LStatus 503; LStr "source";
                     LStr "1001"; LStr "--block-->"; LStr "c"; LStr "1003";
                     LStr "Over capacity"]]
  ∧ decisions (st_trace s') = ["1003"]
  ∧ st_status s' !! 2 = Some PENDING
  ∧ decisions (st_trace s_up) = ["1003"; "1004"]
  ∧ st_status s_up !! 2 = Some CANCELLED_DUPLICATE.
Proof. vm_compute. repeat split. Qed.

(** C4.  Two batches in which an action whose sink the lookup answer does
    not mention does not end DEFERRED_TARGET_SUSPENDED.  In the first it
    stands behind a clear action whose block write fails: the error
    branch never calls [next], the action is not taken up and stays
    PENDING (with the endpoint up it is deferred).  In the second its
    sink id is "constructor": the index, a plain object, answers the
    lookup with the member it inherits, the classifier finds no obstacle,
    and the block write is issued and the action saved as DONE. *)
Theorem absent_sink_is_not_always_deferred :
  let run_batch env actions :=
    (blockUnlessFollowing env sample_user (map sink_uid actions) actions
       (pending_state actions)).2 in
  let stalled := run_batch blocks_down clear_then_absent in
  let drained := run_batch all_up clear_then_absent in
  let inherited := run_batch all_up prototype_named_actions in
  (("1007" ∉ id_str <$> sample_friendships)
   ∧ decisions (st_trace stalled) = ["1003"]
   ∧ List.filter is_lookup (st_trace stalled)
     = [FriendshipsLookup "1003,1007" "token" "secret"]
   ∧ st_status stalled !! 2 = Some PENDING
   ∧ st_status drained !! 2 = Some DEFERRED_TARGET_SUSPENDED)
  ∧ (("constructor" ∉ id_str <$> sample_friendships)
     ∧ indexBy_id_str sample_friendships !! "constructor"
       = Some inherited_member
     ∧ List.filter is_block_write (st_trace inherited)
       = [BlocksCreate "constructor" "token" "secret"]
     ∧ st_status inherited !! 1 = Some DONE).
Proof.
  assert (∀ k, bool_decide (k ∉ id_str <$> sample_friendships) = true →
               k ∉ id_str <$> sample_friendships) as Habsent.
  { intros k. apply bool_decide_eq_true_1. }
  split.
  - split; [by apply Habsent|]. vm_compute. repeat split.
  - split; [by apply Habsent|]. vm_compute. repeat split.
Qed.

(** The scenarios of a pass with everything up: a followed sink is
    cancelled, a stranger is blocked, a sink missing from the lookup is
    deferred, a sink the account has un-blocked is cancelled; the one
    block write of the batch is the stranger's. *)
Example scenarios_A_B_C :
  let actions := [sample_action 1 "1002"; sample_action 2 "1003";
                  sample_action 3 "1007"; sample_action 4 "1005"] in
  let s' := (processActionsForUser all_up sample_user actions
               (pending_state actions)).2 in
  (λ i, st_status s' !! i) <$> [1; 2; 3; 4] =
    [Some CANCELLED_FOLLOWING; Some DONE; Some DEFERRED_TARGET_SUSPENDED;
     Some CANCELLED_UNBLOCKED]
  ∧ List.filter is_block_write (st_trace s') =
      [BlocksCreate "1003" "token" "secret"]
  ∧ List.filter is_lookup (st_trace s') =
      [FriendshipsLookup "1002,1003,1007,1005" "token" "secret"].
Proof. vm_compute. repeat split. Qed.

Lemma block_write_failure_drops_next_sample :
  let action := sample_action 1 "1003" in
  let s := pending_state [action] in
  newState sample_user (sample_index !! sink_uid action) (sink_uid action) = None
  ∧ ∃ s1, (∀ next, processAction blocks_down sample_user sample_index action
                     next s = (tt, s1))
          ∧ st_status s1 = st_status s.
Proof.
  intros action s.
  assert (newState sample_user (sample_index !! sink_uid action) (sink_uid action)
          = None) as Hclear by reflexivity.
  split; [exact Hclear|].
  destruct (block_write_failure_drops_next blocks_down sample_user sample_index
              action s over_capacity tt Hclear eq_refl)
    as (s1 & _ & _ & _ & Hdrop & Hstatus & _).
  exists s1. split; [exact Hdrop|exact Hstatus].
Defined.

(** *** Instances of the laws on the scenarios *)

Lemma classifier_first_match_wins_both_tags :
  let action := sample_action 4 "1004" in
  let s := pending_state [action] in
  resolves_to all_up sample_user sample_index action s CANCELLED_DUPLICATE
  ∧ ¬ resolves_to all_up sample_user sample_index action s CANCELLED_FOLLOWING.
Proof.
  intros action s.
  destruct (classifier_first_match_wins all_up sample_user sample_index action s)
    as (_ & Hsome & _).
  refine (proj2 (proj2 (proj2 (proj2 (proj2
            (Hsome {| id_str := "1004"; screen_name := "d";
                      connections := ["blocking"; "following"] |} _))))) _ _).
  - reflexivity.
  - simpl. repeat constructor.
  - simpl. repeat constructor.
Defined.

Lemma missing_friendship_defers_scenario_B :
  let action := sample_action 7 "1007" in
  let s := pending_state [action] in
  sample_index !! sink_uid action = None
  ∧ resolves_to all_up sample_user sample_index action s
      DEFERRED_TARGET_SUSPENDED.
Proof.
  intros action s. split; [reflexivity|].
  apply (missing_friendship_defers all_up sample_user sample_index action s).
  reflexivity.
Defined.

Lemma self_block_never_done_sample :
  let action := sample_action 5 "1001" in
  let s := pending_state [action] in
  source_uid action = uid sample_user
  ∧ source_uid action = sink_uid action
  ∧ ∃ st, st ≠ DONE
      ∧ resolves_to all_up sample_user sample_index action s st.
Proof.
  intros action s. split; [reflexivity|]. split; [reflexivity|].
  destruct (self_block_never_done all_up sample_user sample_index action s
              eq_refl eq_refl) as ((st & _ & Hnd & Hres) & _).
  exists st. split; assumption.
Defined.

Lemma validator_batch_size_contract_101_and_100 :
  let over := replicate 101 "1007" in
  let full := replicate 100 "1007" in
  let s := pending_state [] in
  (100 < length over
   ∧ st_trace (blockUnlessFollowing all_up sample_user over [] s).2 =
       [Log LvlError [LStr "No more than 100 sinkUids allowed. Given"; LNum 101]])
  ∧ (length full ≤ 100
     ∧ ∃ evs,
         st_trace (blockUnlessFollowing all_up sample_user full [] s).2 = evs
         ∧ length (List.filter is_lookup evs) = 1).
Proof.
  intros over full s.
  assert (100 < length over) as Hover by (vm_compute; lia).
  assert (length full ≤ 100) as Hfull by (vm_compute; lia).
  split; split; try assumption.
  - rewrite (proj1 (validator_batch_size_contract all_up sample_user over [] s) Hover).
    reflexivity.
  - destruct (proj2 (validator_batch_size_contract all_up sample_user full [] s) Hfull)
      as (evs & Htr & Hcount).
    exists evs. split; [exact Htr|exact Hcount].
Defined.

Lemma lookup_failure_skips_batch_sample :
  let s := pending_state two_clear_actions in
  let s' := (blockUnlessFollowing lookup_down sample_user ["1003"; "1006"]
               two_clear_actions s).2 in
  length ["1003"; "1006"] ≤ 100
  ∧ twitter_friendships lookup_down (String.concat "," ["1003"; "1006"])
      (access_token sample_user) (access_token_secret sample_user)
      (st_world s) = (inl over_capacity, tt)
  ∧ st_status s' = st_status s.
Proof.
  intros s s'.
  assert (length ["1003"; "1006"] ≤ 100) as Hlen by (simpl; lia).
  split; [exact Hlen|]. split; [reflexivity|].
  exact (proj1 (proj2 (lookup_failure_skips_batch lookup_down sample_user
                         ["1003"; "1006"] two_clear_actions s over_capacity tt
                         Hlen eq_refl))).
Defined.

Lemma empty_batch_makes_no_call_sample :
  let s := pending_state two_clear_actions in
  processActionsForUser all_up sample_user [] s = (tt, s)
  ∧ 0 < length two_clear_actions
  ∧ processActionsForUser all_up sample_user two_clear_actions s =
    blockUnlessFollowing all_up sample_user ["1003"; "1006"] two_clear_actions s.
Proof.
  intros s.
  destruct (empty_batch_makes_no_call all_up sample_user s) as (Hempty & Hsome & _).
  assert (0 < length two_clear_actions) as Hlen by (simpl; lia).
  split; [exact Hempty|]. split; [exact Hlen|].
  exact (Hsome two_clear_actions Hlen).
Defined.

(** ** The batch selector *)

Lemma elem_of_sql_where conds rows r :
  r ∈ sql_where conds rows ↔ r ∈ rows ∧ ∀ c, c ∈ conds → holds r c = true.
Proof.
  unfold sql_where. rewrite !list_elem_of_In, filter_In, forallb_forall.
  split; intros [Hr Hc]; (split; [done|]).
  - intros c Hin. apply Hc. by apply list_elem_of_In.
  - intros c Hin. apply Hc. by apply list_elem_of_In.
Qed.

Lemma group_source_uid_spec seen rows :
  group_source_uid seen rows ⊆ rows
  ∧ (∀ r, r ∈ group_source_uid seen rows → row_source_uid r ∉ seen)
  ∧ NoDup (row_source_uid <$> group_source_uid seen rows).
Proof.
  revert seen. induction rows as [|r rows IH]; intros seen; simpl.
  - split; [done|]. split; [by intros r Hr; apply elem_of_nil in Hr|constructor].
  - destruct (decide (row_source_uid r ∈ seen)) as [Hin|Hnin].
    + destruct (IH seen) as (Hsub & Hseen & Hnd).
      split; [|done]. intros x Hx. right. by apply Hsub.
    + destruct (IH ({[row_source_uid r]} ∪ seen)) as (Hsub & Hseen & Hnd).
      split; [|split].
      * intros x Hx. apply elem_of_cons in Hx as [->|Hx]; [left|right; by apply Hsub].
      * intros x Hx. apply elem_of_cons in Hx as [->|Hx]; [done|].
        apply Hseen in Hx. intros Hs. apply Hx, elem_of_union. by right.
      * rewrite fmap_cons. constructor; [|done].
        intros Hdup. apply list_elem_of_fmap in Hdup as (x & Heq & Hx).
        apply Hseen in Hx. apply Hx, elem_of_union. left.
        by apply elem_of_singleton.
Qed.

#[global] Instance updatedAt_le_trans : Transitive updatedAt_le.
Proof. intros x y z. unfold updatedAt_le. lia. Qed.

#[global] Instance updatedAt_le_total : Total updatedAt_le.
Proof. intros x y. unfold updatedAt_le. lia. Qed.

Lemma instantiate_all_trace {W : Type} (rows : list ActionRow) (s : State W) :
  st_trace (instantiate_all rows s).2 = st_trace s.
Proof.
  revert s. induction rows as [|row rows IH]; intros s; [done|].
  simpl. unfold bind at 1. unfold instantiate at 1.
  unfold bind at 1.
  match goal with
  | |- context [instantiate_all rows ?s1] =>
      specialize (IH s1); destruct (instantiate_all rows s1) as [actions s2]
  end.
  simpl in *. done.
Qed.

Lemma processActionsForUser_trace {W : Type} (env : Collaborators W)
    (btUser : BtUser) (actions : list Action) (s : State W) :
  ∃ evs, st_trace (processActionsForUser env btUser actions s).2 = st_trace s ++ evs.
Proof.
  unfold processActionsForUser. case_bool_decide as Hlen.
  - destruct (decide (length (map sink_uid actions) ≤ 100)) as [Hsmall|Hbig].
    + destruct (validator_small env btUser (map sink_uid actions) actions s Hsmall)
        as (r & w' & _ & Heq).
      simpl in Heq. rewrite Heq. destruct r as [err|friendships].
      * simpl. rewrite <- app_assoc. eauto.
      * match goal with
        | |- context [blockUnlessFollowingWithFriendships env ?u ?idx ?l ?s0] =>
            destruct (run_spec env u idx l s0) as (evs & _ & Htr & _)
        end.
        rewrite Htr. simpl. rewrite <- app_assoc. eauto.
    + unfold blockUnlessFollowing. rewrite bool_decide_eq_true_2 by lia.
      simpl. eauto.
  - exists []. simpl. by rewrite app_nil_r.
Qed.

(** C8.  For an account, the selector's second query, the one
    [processActionsForUserId] sends once the account is found, yields at
    most a hundred rows (a hundred when that many qualify), all of them
    rows of the table that belong to the account, are PENDING and of kind
    "block"; they come in ascending order of [updatedAt], and they are the
    oldest: every qualifying row left out was updated no earlier than
    every row taken.  The first query yields at most three hundred rows,
    all PENDING block actions of the table, no two of them with the same
    source id. *)
Theorem batch_selector_queries (btUser : BtUser) (table : list ActionRow) :
  let batch := getActions btUser getActions_options table in
  let pending_blocks_of_account :=
    sql_where [SourceIs (uid btUser); StatusIs PENDING; TypeIs "block"] table in
  let representatives := findAll processBlocks_options table in
  (length batch = min 100 (length pending_blocks_of_account)
   ∧ length batch ≤ 100
   ∧ (∀ r, r ∈ batch →
        r ∈ table ∧ row_source_uid r = uid btUser
        ∧ row_status r = PENDING ∧ row_type r = "block")
   ∧ StronglySorted updatedAt_le batch
   ∧ ∃ left_out,
       batch ++ left_out ≡ₚ pending_blocks_of_account
       ∧ ∀ r r', r ∈ batch → r' ∈ left_out → updatedAt_le r r')
  ∧ (length representatives ≤ 300
     ∧ (∀ r, r ∈ representatives →
          r ∈ table ∧ row_status r = PENDING ∧ row_type r = "block")
     ∧ NoDup (row_source_uid <$> representatives))
  ∧ (∀ (W : Type) (env : Collaborators W) (uid' : string) (s : State W) w1,
       btUser_find env uid' (st_world s) = (inr (Some btUser), w1) →
       ∃ evs,
         st_trace (processActionsForUserId env uid' s).2 =
         st_trace s ++
           BtUserFind uid' :: GetActions (uid btUser) getActions_options :: evs).
Proof.
  intros batch qualifying representatives. split; [|split].
  - unfold batch, getActions, findAll, getActions_options; simpl.
    fold qualifying.
    pose proof (StronglySorted_merge_sort updatedAt_le qualifying) as Hsorted.
    pose proof (merge_sort_Permutation updatedAt_le qualifying) as Hperm.
    rewrite <- (take_drop 100 (merge_sort updatedAt_le qualifying)) in Hsorted.
    split; [|split; [|split; [|split]]].
    + by rewrite length_take, Hperm.
    + rewrite length_take. lia.
    + intros r Hr. apply subseteq_take in Hr. rewrite Hperm in Hr.
      apply elem_of_sql_where in Hr as [Hin Hc]. split; [done|].
      pose proof (Hc (SourceIs (uid btUser))) as H1.
      pose proof (Hc (StatusIs PENDING)) as H2.
      pose proof (Hc (TypeIs "block")) as H3.
      simpl in H1, H2, H3.
      rewrite bool_decide_eq_true in H1, H2, H3.
      split; [apply H1|split; [apply H2|apply H3]]; set_solver.
    + by apply StronglySorted_app_1_l in Hsorted.
    + exists (drop 100 (merge_sort updatedAt_le qualifying)). split.
      * by rewrite take_drop.
      * intros r r'. by apply StronglySorted_app_1_elem_of.
  - unfold representatives, findAll, processBlocks_options; simpl.
    destruct (group_source_uid_spec ∅
                (sql_where [StatusIs PENDING; TypeIs "block"] table))
      as (Hsub & _ & Hnd).
    split; [|split].
    + rewrite length_take. lia.
    + intros r Hr. apply subseteq_take, Hsub in Hr.
      apply elem_of_sql_where in Hr as [Hin Hc]. split; [done|].
      pose proof (Hc (StatusIs PENDING)) as H2.
      pose proof (Hc (TypeIs "block")) as H3.
      simpl in H2, H3. rewrite bool_decide_eq_true in H2, H3.
      split; [apply H2|apply H3]; set_solver.
    + rewrite fmap_take. eapply sublist_NoDup; [exact Hnd|]. apply sublist_take.
  - intros W env uid' s w1 Hfind. unfold processActionsForUserId.
    unfold bind at 1. unfold ask at 1. rewrite Hfind.
    unfold bind at 1. unfold ask at 1. simpl.
    destruct (btUser_getActions env btUser getActions_options w1)
      as [[err|[rows|]] w2]; simpl.
    + rewrite <- !app_assoc. simpl. eauto.
    + unfold bind.
      match goal with
      | |- context [instantiate_all rows ?s1] =>
          pose proof (instantiate_all_trace rows s1) as Hinst;
          destruct (instantiate_all rows s1) as [actions s2]
      end.
      destruct (processActionsForUser_trace env btUser actions s2) as [evs Htr].
      rewrite Htr. simpl in Hinst. rewrite Hinst.
      rewrite <- !app_assoc. simpl. eauto.
    + rewrite <- !app_assoc. simpl. eauto.
Qed.

(** * Further properties of the engine *)

(** ** The block writes of a batch *)

Lemma newState_None_inv sourceBtUser friendship sink :
  newState sourceBtUser friendship sink = None →
  ∃ f, friendship = Some f
       ∧ ("blocking" ∉ connections f)
       ∧ ("following" ∉ connections f)
       ∧ (∀ u, u ∈ unblockedUsers sourceBtUser → unblocked_sink_uid u ≠ sink)
       ∧ uid sourceBtUser ≠ sink.
Proof.
  unfold newState, contains. destruct friendship as [f|]; [|done].
  case_bool_decide as Hb; [done|].
  case_bool_decide as Hf; [done|].
  destruct (find_unblocked (unblockedUsers sourceBtUser) sink) as [u|] eqn:Hfu;
    [done|].
  case_bool_decide as Hs; [done|].
  intros _. exists f. split; [done|]. split; [done|]. split; [done|].
  split; [|done].
  intros u Hu Heq.
  assert (is_Some (find_unblocked (unblockedUsers sourceBtUser) sink)) as [v Hv].
  { apply find_unblocked_Some. eauto. }
  congruence.
Qed.

Section Shape.
Context {W : Type} (env : Collaborators W).
Context (sourceBtUser : BtUser) (indexedFriendships : gmap string Friendship).

#[local] Abbreviation run :=
  (blockUnlessFollowingWithFriendships env sourceBtUser indexedFriendships).
#[local] Abbreviation step := (processAction env sourceBtUser indexedFriendships).
#[local] Abbreviation clear := (clear_for_block sourceBtUser indexedFriendships).
#[local] Abbreviation settled := (settled_status sourceBtUser indexedFriendships).

(** One step, by its block writes: one write for a clear action, none
    otherwise; [DONE] is saved only behind the write; the step stops
    short of [next] only on a failed write. *)
Lemma step_shape action s :
  ∃ s1 evs,
    st_trace s1 = st_trace s ++ evs
    ∧ List.filter is_block_write evs =
        (if clear action then [write_of sourceBtUser action] else [])
    ∧ (∀ b, Save b (Some DONE) ∈ evs → write_of sourceBtUser b ∈ evs)
    ∧ ((∀ next, step action next s = next s1)
         ∧ st_status s1 = <[action_id action := settled action]> (st_status s)
       ∨ (∀ next, step action next s = (tt, s1))
         ∧ st_status s1 = st_status s
         ∧ ∃ err w', twitter_blocks env (sink_uid action)
                       (access_token sourceBtUser)
                       (access_token_secret sourceBtUser) (st_world s)
                     = (inl err, w')).
Proof.
  unfold clear_for_block, settled_status.
  destruct (newState sourceBtUser (indexedFriendships !! sink_uid action)
              (sink_uid action)) as [st|] eqn:Hst.
  - exists (after_save env action st s).
    destruct (after_save_trace env action st s) as (evs & Htr & _ & Honly).
    exists evs. split; [done|]. split; [|split].
    + rewrite bool_decide_eq_false_2 by done.
      clear Htr. induction evs as [|e evs IH]; [done|].
      simpl. rewrite IH.
      * destruct (Honly e) as [->|[err ->]]; [left|done|done].
      * intros e' He'. apply Honly. by right.
    + intros b Hb. apply Honly in Hb as [Hb|[err Hb]]; [|done].
      injection Hb as Hb1 Hb2. subst.
      by apply newState_not_DONE in Hst.
    + left. split.
      * intros next. unfold processAction. rewrite Hst. apply setActionStatus_eq.
      * simpl. apply after_save_status.
  - rewrite bool_decide_eq_true_2 by done.
    destruct (newState_None_attempts env sourceBtUser indexedFriendships action s Hst)
      as (s0 & r & dbg & Hstep & Hr & Hstatus & Htr).
    set (w := write_of sourceBtUser action).
    destruct r as [err|results].
    + pose proof (fun next => blocks_create_callback_error env sourceBtUser
                    (indexedFriendships !! sink_uid action) action next err s0)
        as Hcb.
      match type of Hcb with
      | ∀ next, _ = (tt, Build_State _ (_ ++ ?errs) _) =>
          exists (Build_State (st_world s0) (st_trace s0 ++ errs) (st_status s0)),
                 ([Log LvlDebug dbg; w] ++ errs)
      end.
      split; [|split; [|split; [|right; split; [|split]]]].
      * simpl. rewrite Htr, <- app_assoc. reflexivity.
      * reflexivity.
      * intros b Hb.
        repeat (apply elem_of_cons in Hb as [Hb|Hb]; [discriminate|]).
        by apply elem_of_nil in Hb.
      * intros next. rewrite Hstep. apply Hcb.
      * done.
      * eauto.
    + pose proof (fun next => blocks_create_callback_success env sourceBtUser
                    (indexedFriendships !! sink_uid action) action next results s0)
        as Hcb.
      match type of Hcb with
      | ∀ next, _ = next (after_save _ _ _ (Build_State _ (_ ++ ?info) _)) =>
          set (s2 := Build_State (st_world s0) (st_trace s0 ++ info) (st_status s0))
            in Hcb;
          destruct (after_save_trace env action DONE s2) as (evs & Htr2 & Hin & Honly);
          exists (after_save env action DONE s2),
                 ([Log LvlDebug dbg; w] ++ info ++ evs)
      end.
      split; [|split; [|split; [|left; split]]].
      * rewrite Htr2. simpl. rewrite Htr, <- !app_assoc. reflexivity.
      * simpl. clear Htr2 Hin.
        induction evs as [|e evs IH]; [done|].
        simpl. simpl in IH. rewrite <- IH.
        -- destruct (Honly e) as [->|[err ->]]; [left|done|done].
        -- intros e' He'. apply Honly. by right.
      * intros b Hb. assert (b = action) as ->.
        { simpl in Hb.
          repeat (apply elem_of_cons in Hb as [Hb|Hb]; [discriminate|]).
          apply Honly in Hb as [Hb|[err Hb]]; [by injection Hb|discriminate]. }
        right. left.
      * intros next. rewrite Hstep. apply Hcb.
      * rewrite after_save_status. simpl. by rewrite Hstatus.
Qed.

End Shape.

Section Batches.
Context {W : Type} (env : Collaborators W).
Context (sourceBtUser : BtUser) (indexedFriendships : gmap string Friendship).

#[local] Abbreviation run :=
  (blockUnlessFollowingWithFriendships env sourceBtUser indexedFriendships).
#[local] Abbreviation step := (processAction env sourceBtUser indexedFriendships).
#[local] Abbreviation clear := (clear_for_block sourceBtUser indexedFriendships).
#[local] Abbreviation settled := (settled_status sourceBtUser indexedFriendships).

(** [step_spec] and [step_shape] speak of the same state and events. *)
Lemma step_full action s :
  ∃ s1 evs,
    st_trace s1 = st_trace s ++ evs
    ∧ decisions evs = [sink_uid action]
    ∧ List.filter is_block_write evs =
        (if clear action then [write_of sourceBtUser action] else [])
    ∧ (∀ b, Save b (Some DONE) ∈ evs → write_of sourceBtUser b ∈ evs)
    ∧ ((∀ next, step action next s = next s1)
         ∧ st_status s1 = <[action_id action := settled action]> (st_status s)
       ∨ (∀ next, step action next s = (tt, s1))
         ∧ st_status s1 = st_status s
         ∧ ∃ err w', twitter_blocks env (sink_uid action)
                       (access_token sourceBtUser)
                       (access_token_secret sourceBtUser) (st_world s)
                     = (inl err, w')).
Proof.
  destruct (step_spec env sourceBtUser indexedFriendships action s)
    as (s1 & evs & Htr & Hdec & _ & Hend).
  destruct (step_shape env sourceBtUser indexedFriendships action s)
    as (s1' & evs' & Htr' & Hw & Hdone & Hend').
  assert (step action (ret tt) s = (tt, s1)) as H1.
  { destruct Hend as [[H _]|[H _]]; by rewrite H. }
  assert (step action (ret tt) s = (tt, s1')) as H2.
  { destruct Hend' as [[H _]|[H _]]; by rewrite H. }
  rewrite H1 in H2. injection H2 as <-.
  rewrite Htr in Htr'. apply app_inv_head in Htr' as <-.
  exists s1, evs. done.
Qed.

Lemma run_shape actions s :
  ∃ evs k,
    st_trace (run actions s).2 = st_trace s ++ evs
    ∧ k ≤ length actions
    ∧ decisions evs = map sink_uid (take k actions)
    ∧ List.filter is_block_write evs =
        map (write_of sourceBtUser) (List.filter clear (take k actions))
    ∧ (∀ b, Save b (Some DONE) ∈ evs → write_of sourceBtUser b ∈ evs)
    ∧ (blocks_never_fail env → k = length actions).
Proof.
  revert s. induction actions as [|action rest IH]; intros s.
  - exists [], 0. simpl. rewrite app_nil_r. repeat split; auto.
    intros b Hb. by apply elem_of_nil in Hb.
  - destruct (step_full action s) as (s1 & evs1 & Htr & Hdec & Hw & Hdone & Hend).
    simpl blockUnlessFollowingWithFriendships.
    destruct Hend as [[Hnext Hstatus]|[Hstop [Hstatus (err & w' & Herr)]]].
    + rewrite Hnext.
      destruct (IH s1) as (evs2 & k & Htr2 & Hk & Hdec2 & Hw2 & Hdone2 & Hall).
      exists (evs1 ++ evs2), (S k).
      split; [|split; [|split; [|split; [|split]]]].
      * rewrite Htr2, Htr. by rewrite app_assoc.
      * simpl. lia.
      * unfold decisions in *. rewrite omap_app, Hdec, Hdec2. reflexivity.
      * rewrite List.filter_app, Hw, Hw2. simpl.
        by destruct (clear action).
      * intros b Hb. apply elem_of_app in Hb as [Hb|Hb]; apply elem_of_app.
        -- left. by apply Hdone.
        -- right. by apply Hdone2.
      * intros Hnf. simpl. by rewrite (Hall Hnf).
    + rewrite Hstop. exists evs1, 1. simpl.
      split; [done|]. split; [lia|]. split; [by rewrite ?take_0|].
      split; [|split].
      * rewrite ?take_0, Hw. simpl. by destruct (clear action).
      * done.
      * intros Hnf.
        destruct (Hnf (sink_uid action) (access_token sourceBtUser)
                    (access_token_secret sourceBtUser) (st_world s))
          as (results & w'' & Hok).
        congruence.
Qed.

(** A batch leaves alone the status of every object that is not in it. *)
Lemma run_frame actions s i :
  i ∉ action_id <$> actions →
  st_status (run actions s).2 !! i = st_status s !! i.
Proof.
  intros Hi.
  destruct (run_spec env sourceBtUser indexedFriendships actions s)
    as (_ & _ & _ & _ & _ & _ & Hinv).
  destruct (Hinv i) as [Heq|(a & st & Ha & Hid & _)]; [done|].
  exfalso. apply Hi. apply list_elem_of_fmap. eauto.
Qed.

Lemma run_statuses actions s :
  blocks_never_fail env →
  NoDup (action_id <$> actions) →
  ∀ a, a ∈ actions →
    st_status (run actions s).2 !! action_id a = Some (settled a).
Proof.
  intros Hnf. revert s. induction actions as [|action rest IH]; intros s Hnd a Ha.
  - by apply elem_of_nil in Ha.
  - rewrite fmap_cons in Hnd. apply NoDup_cons in Hnd as [Hfresh Hnd].
    destruct (step_full action s) as (s1 & evs1 & _ & _ & _ & _ & Hend).
    simpl blockUnlessFollowingWithFriendships.
    destruct Hend as [[Hnext Hstatus]|[_ [_ (err & w' & Herr)]]].
    + rewrite Hnext. apply elem_of_cons in Ha as [->|Ha].
      * rewrite run_frame by done. rewrite Hstatus. apply lookup_insert_eq.
      * by apply IH.
    + destruct (Hnf (sink_uid action) (access_token sourceBtUser)
                  (access_token_secret sourceBtUser) (st_world s))
        as (results & w'' & Hok).
      congruence.
Qed.

End Batches.

(** X3.  No batch writes a block it should not: every block write of a run is
    made with the account's credentials, for the sink of an action of the
    batch, and that sink is in the relationship map without the tags
    "blocking" and "following", is not in the account's suppression list
    and is not the account itself. *)
Theorem block_writes_only_for_clear_sinks
    {W : Type} (env : Collaborators W) (sourceBtUser : BtUser)
    (indexedFriendships : gmap string Friendship) (actions : list Action)
    (s : State W) :
  ∃ evs,
    st_trace (blockUnlessFollowingWithFriendships env sourceBtUser
                indexedFriendships actions s).2 = st_trace s ++ evs
    ∧ ∀ u t k, BlocksCreate u t k ∈ evs →
        t = access_token sourceBtUser
        ∧ k = access_token_secret sourceBtUser
        ∧ (∃ a, a ∈ actions ∧ sink_uid a = u)
        ∧ ∃ f, indexedFriendships !! u = Some f
               ∧ ("blocking" ∉ connections f)
               ∧ ("following" ∉ connections f)
               ∧ (∀ v, v ∈ unblockedUsers sourceBtUser → unblocked_sink_uid v ≠ u)
               ∧ uid sourceBtUser ≠ u.
Proof.
  destruct (run_shape env sourceBtUser indexedFriendships actions s)
    as (evs & n & Htr & _ & _ & Hw & _).
  exists evs. split; [done|]. intros u t k Hin.
  assert (In (BlocksCreate u t k) (List.filter is_block_write evs)) as Hf.
  { apply filter_In. split; [by apply list_elem_of_In|done]. }
  rewrite Hw in Hf. apply in_map_iff in Hf as (a & Heq & Ha).
  apply filter_In in Ha as [Ha Hclear].
  apply list_elem_of_In, subseteq_take in Ha.
  unfold write_of in Heq. injection Heq as <- <- <-.
  unfold clear_for_block in Hclear. apply bool_decide_eq_true in Hclear.
  apply newState_None_inv in Hclear. eauto 10.
Qed.

(** X4.  A batch saves an action as DONE only when it has issued the block
    write for that action's sink. *)
Theorem done_only_behind_a_block_write
    {W : Type} (env : Collaborators W) (sourceBtUser : BtUser)
    (indexedFriendships : gmap string Friendship) (actions : list Action)
    (s : State W) :
  ∃ evs,
    st_trace (blockUnlessFollowingWithFriendships env sourceBtUser
                indexedFriendships actions s).2 = st_trace s ++ evs
    ∧ ∀ a, Save a (Some DONE) ∈ evs → write_of sourceBtUser a ∈ evs.
Proof.
  destruct (run_shape env sourceBtUser indexedFriendships actions s)
    as (evs & n & Htr & _ & _ & _ & Hdone & _).
  by exists evs.
Qed.

(** X5.  The block writes of a batch are those of its clear actions, in the
    order of the batch and one for each action, so a sink that is clear
    and queued twice is written twice; they stop with the first [k]
    actions when a write fails, and cover the whole batch when none
    does. *)
Theorem block_writes_follow_the_batch
    {W : Type} (env : Collaborators W) (sourceBtUser : BtUser)
    (indexedFriendships : gmap string Friendship) (actions : list Action)
    (s : State W) :
  ∃ evs k,
    st_trace (blockUnlessFollowingWithFriendships env sourceBtUser
                indexedFriendships actions s).2 = st_trace s ++ evs
    ∧ k ≤ length actions
    ∧ List.filter is_block_write evs =
        map (write_of sourceBtUser)
          (List.filter (clear_for_block sourceBtUser indexedFriendships)
             (take k actions))
    ∧ (blocks_never_fail env → k = length actions).
Proof.
  destruct (run_shape env sourceBtUser indexedFriendships actions s)
    as (evs & k & Htr & Hk & _ & Hw & _ & Hall).
  by exists evs, k.
Qed.

(** X6.  When no block write fails the batch drains: every action is decided,
    in order, whether or not the saves succeed. *)
Theorem batch_drains_when_writes_succeed
    {W : Type} (env : Collaborators W) (sourceBtUser : BtUser)
    (indexedFriendships : gmap string Friendship) (actions : list Action)
    (s : State W) :
  blocks_never_fail env →
  ∃ evs,
    st_trace (blockUnlessFollowingWithFriendships env sourceBtUser
                indexedFriendships actions s).2 = st_trace s ++ evs
    ∧ decisions evs = map sink_uid actions
    ∧ length (List.filter is_block_write evs) =
        length (List.filter (clear_for_block sourceBtUser indexedFriendships)
                  actions).
Proof.
  intros Hnf.
  destruct (run_shape env sourceBtUser indexedFriendships actions s)
    as (evs & k & Htr & _ & Hdec & Hw & _ & Hall).
  rewrite (Hall Hnf), firstn_all in Hdec, Hw.
  exists evs. split; [done|]. split; [done|].
  by rewrite Hw, length_map.
Qed.

(** X7.  When no block write fails and the batch holds each action object
    once, every action ends the batch in the status the classifier gives
    it, DONE when it is clear. *)
Theorem batch_final_statuses
    {W : Type} (env : Collaborators W) (sourceBtUser : BtUser)
    (indexedFriendships : gmap string Friendship) (actions : list Action)
    (s : State W) (a : Action) :
  blocks_never_fail env →
  NoDup (action_id <$> actions) →
  a ∈ actions →
  st_status (blockUnlessFollowingWithFriendships env sourceBtUser
               indexedFriendships actions s).2 !! action_id a
  = Some (settled_status sourceBtUser indexedFriendships a).
Proof. intros Hnf Hnd Ha. by apply run_statuses. Qed.

(** X8.  A batch never touches the status of an action object that is not in
    it. *)
Theorem batch_leaves_other_actions_alone
    {W : Type} (env : Collaborators W) (sourceBtUser : BtUser)
    (indexedFriendships : gmap string Friendship) (actions : list Action)
    (s : State W) (i : nat) :
  i ∉ action_id <$> actions →
  st_status (blockUnlessFollowingWithFriendships env sourceBtUser
               indexedFriendships actions s).2 !! i = st_status s !! i.
Proof. apply run_frame. Qed.

(** X2.  When Twitter answers the block write of a clear action with a result,
    the step logs it, assigns DONE, saves, and hands over to [next]
    once. *)
Theorem block_write_success_marks_done
    {W : Type} (env : Collaborators W) (sourceBtUser : BtUser)
    (indexedFriendships : gmap string Friendship) (action : Action)
    (s : State W) (results : BlockedUser) (w' : W) :
  newState sourceBtUser (indexedFriendships !! sink_uid action) (sink_uid action)
    = None →
  twitter_blocks env (sink_uid action) (access_token sourceBtUser)
    (access_token_secret sourceBtUser) (st_world s) = (inr results, w') →
  ∃ s1 evs,
    (∀ next, processAction env sourceBtUser indexedFriendships action next s
             = next s1)
    ∧ st_status s1 = <[action_id action := DONE]> (st_status s)
    ∧ st_trace s1 = st_trace s ++ evs
    ∧ List.filter is_block_write evs = [write_of sourceBtUser action]
    ∧ Save action (Some DONE) ∈ evs.
Proof.
  intros Hst Hok.
  destruct (step_shape env sourceBtUser indexedFriendships action s)
    as (s1 & evs & Htr & Hw & _ & Hend).
  unfold clear_for_block in Hw. rewrite bool_decide_eq_true_2 in Hw by done.
  destruct Hend as [[Hnext Hstatus]|[_ [_ (err & w'' & Herr)]]]; [|congruence].
  unfold settled_status in Hstatus. rewrite Hst in Hstatus. simpl in Hstatus.
  exists s1, evs. repeat split; try done.
  (* the save is in the events: the continuation that stops shows it *)
  destruct (newState_None_attempts env sourceBtUser indexedFriendships action s Hst)
    as (s0 & r & dbg & Hstep & Hr & _ & Htr0).
  rewrite Hok in Hr. injection Hr as <- _.
  specialize (Hstep (ret tt)). rewrite Hnext in Hstep.
  rewrite blocks_create_callback_success in Hstep. unfold ret in Hstep.
  injection Hstep as ->.
  match type of Htr with
  | st_trace (after_save _ _ _ ?s2) = _ =>
      destruct (after_save_trace env action DONE s2) as (evs' & Htr' & Hin & _)
  end.
  rewrite Htr' in Htr. simpl in Htr. rewrite Htr0, <- !app_assoc in Htr.
  apply app_inv_head in Htr. rewrite <- Htr.
  simpl. do 3 right. done.
Qed.

(** ** The relationship index *)

Lemma indexBy_id_str_snoc fs f :
  indexBy_id_str (fs ++ [f]) = <[id_str f := f]> (indexBy_id_str fs).
Proof. unfold indexBy_id_str. by rewrite foldl_app. Qed.

Lemma Object_prototype_None k :
  Object_prototype !! k = None ↔ k ∉ Object_prototype_keys.
Proof.
  unfold Object_prototype. by rewrite <- not_elem_of_list_to_map.
Qed.

Lemma Object_prototype_Some k f :
  Object_prototype !! k = Some f →
  k ∈ Object_prototype_keys ∧ f = inherited_member.
Proof.
  unfold Object_prototype. intros Hk.
  apply elem_of_list_to_map_2, list_elem_of_fmap in Hk as (k' & Heq & Hin).
  injection Heq as -> ->. done.
Qed.

Lemma indexBy_id_str_None fs k :
  indexBy_id_str fs !! k = None ↔
  (k ∉ id_str <$> fs) ∧ (k ∉ Object_prototype_keys).
Proof.
  induction fs as [|f fs IH] using rev_ind.
  - change (indexBy_id_str []) with Object_prototype.
    rewrite Object_prototype_None. split; [|by intros [_ Hk]].
    intros Hk. split; [|done]. intros Hin. by apply elem_of_nil in Hin.
  - rewrite indexBy_id_str_snoc, fmap_app, not_elem_of_app. simpl.
    destruct (decide (id_str f = k)) as [<-|Hne].
    + rewrite lookup_insert_eq. split; [done|].
      intros [[_ Hk] _]. exfalso. apply Hk. left.
    + rewrite lookup_insert_ne by done. rewrite IH. split.
      * intros [Hk Hp]. split; [|done]. split; [done|]. intros Hin.
        apply list_elem_of_singleton in Hin. congruence.
      * by intros [[Hk _] Hp].
Qed.

Lemma indexBy_id_str_Some fs k f :
  indexBy_id_str fs !! k = Some f →
  (f ∈ fs ∧ id_str f = k)
  ∨ (k ∈ Object_prototype_keys ∧ f = inherited_member).
Proof.
  induction fs as [|g fs IH] using rev_ind.
  - change (indexBy_id_str []) with Object_prototype.
    intros Hk. right. by apply Object_prototype_Some.
  - rewrite indexBy_id_str_snoc.
    destruct (decide (id_str g = k)) as [<-|Hne].
    + rewrite lookup_insert_eq. intros [= <-]. left. split; [|done].
      apply elem_of_app. right. left.
    + rewrite lookup_insert_ne by done. intros Hf.
      destruct (IH Hf) as [[Hin Hid]|Hp]; [left|by right].
      split; [|done]. apply elem_of_app. by left.
Qed.

(** ** The validator and the executor together *)

(** X10.  When the lookup of a batch of at most a hundred sinks succeeds and no
    block write fails, every action of the batch (each object held once)
    ends in the status the classifier gives it against the index of the
    answer; in particular an action whose sink the answer does not
    mention ends DEFERRED_TARGET_SUSPENDED, unless the sink id is the
    name of a member of [Object.prototype], which the index answers
    for. *)
Theorem validated_batch_final_statuses
    {W : Type} (env : Collaborators W) (sourceBtUser : BtUser)
    (sinkUids : list string) (actions : list Action) (s : State W)
    (friendships : list Friendship) (w' : W) (a : Action) :
  length sinkUids ≤ 100 →
  twitter_friendships env (String.concat "," sinkUids)
    (access_token sourceBtUser) (access_token_secret sourceBtUser)
    (st_world s) = (inr friendships, w') →
  blocks_never_fail env →
  NoDup (action_id <$> actions) →
  a ∈ actions →
  let s' := (blockUnlessFollowing env sourceBtUser sinkUids actions s).2 in
  st_status s' !! action_id a
    = Some (settled_status sourceBtUser (indexBy_id_str friendships) a)
  ∧ (sink_uid a ∉ id_str <$> friendships →
     sink_uid a ∉ Object_prototype_keys →
     st_status s' !! action_id a = Some DEFERRED_TARGET_SUSPENDED).
Proof.
  intros Hlen Hok Hnf Hnd Ha s'.
  destruct (validator_small env sourceBtUser sinkUids actions s Hlen)
    as (r & w'' & Hr & Heq).
  rewrite Hok in Hr. injection Hr as <- <-.
  simpl in Heq. subst s'. rewrite Heq.
  assert (∀ st, Some (settled_status sourceBtUser (indexBy_id_str friendships) a)
                = st →
    st_status
      (blockUnlessFollowingWithFriendships env sourceBtUser
         (indexBy_id_str friendships) actions
         (Build_State w'
            (st_trace s ++
               [Log LvlDebug [LStr "Checking follow status"; LStr (uid sourceBtUser);
                              LStr "--???-->"; LNum (length sinkUids); LStr "users"];
                FriendshipsLookup (String.concat "," sinkUids)
                  (access_token sourceBtUser) (access_token_secret sourceBtUser)])
            (st_status s))).2 !! action_id a = st) as Hst.
  { intros st <-. by apply run_statuses. }
  split; [by apply Hst|].
  intros Habsent Hplain. apply Hst. unfold settled_status.
  rewrite (proj2 (indexBy_id_str_None friendships (sink_uid a))); done.
Qed.

(** ** One account's run *)

Lemma instantiate_all_spec {W : Type} (rows : list ActionRow) (s : State W) :
  st_world (instantiate_all rows s).2 = st_world s
  ∧ map sink_uid (instantiate_all rows s).1 = map row_sink_uid rows
  ∧ map action_id (instantiate_all rows s).1 = map row_id rows.
Proof.
  revert s. induction rows as [|row rows IH]; intros s; [done|].
  simpl. unfold bind, instantiate, ret.
  match goal with
  | |- context [instantiate_all rows ?s1] =>
      destruct (IH s1) as (Hw & Hs & Hi);
      destruct (instantiate_all rows s1) as [actions s2]
  end.
  simpl in *. by rewrite Hw, Hs, Hi.
Qed.

(** X11.  A fault of the store ends the account's run on the spot: an error of
    either query is logged, an unknown account is logged as an error, a
    null answer for the actions as a warning; in none of these cases is
    Twitter called or a status touched. *)
Theorem store_faults_skip_account
    {W : Type} (env : Collaborators W) (uid' : string) (s : State W) :
  let result := processActionsForUserId env uid' s in
  let ends_with (w : W) (evs : list Event) :=
    result = (tt, Build_State w (st_trace s ++ BtUserFind uid' :: evs)
                    (st_status s)) in
  (∀ err w1,
     btUser_find env uid' (st_world s) = (inl err, w1) →
     ends_with w1 [Log LvlError [LStoreErr err]])
  ∧ (∀ w1,
       btUser_find env uid' (st_world s) = (inr None, w1) →
       ends_with w1 [Log LvlError [LStr "User not found"; LStr uid']])
  ∧ (∀ btUser w1,
       btUser_find env uid' (st_world s) = (inr (Some btUser), w1) →
       (∀ err w2,
          btUser_getActions env btUser getActions_options w1 = (inl err, w2) →
          ends_with w2 [GetActions (uid btUser) getActions_options;
                        Log LvlError [LStoreErr err]])
       ∧ (∀ w2,
            btUser_getActions env btUser getActions_options w1 = (inr None, w2) →
            ends_with w2 [GetActions (uid btUser) getActions_options;
                          Log LvlWarn [LStr "No actions found for user";
                                       LUndefined; LStr (uid btUser)]])).
Proof.
  intros result ends_with. subst result ends_with. simpl.
  unfold processActionsForUserId.
  split; [|split].
  - intros err w1 Hfind. unfold bind at 1. unfold ask at 1. rewrite Hfind.
    unfold logger_error, emit. simpl. by rewrite <- app_assoc.
  - intros w1 Hfind. unfold bind at 1. unfold ask at 1. rewrite Hfind.
    unfold logger_error, emit. simpl. by rewrite <- app_assoc.
  - intros btUser w1 Hfind. split.
    + intros err w2 Hget. unfold bind at 1. unfold ask at 1. rewrite Hfind.
      unfold bind at 1. unfold ask at 1. simpl. rewrite Hget.
      unfold logger_error, emit. simpl. by rewrite <- !app_assoc.
    + intros w2 Hget. unfold bind at 1. unfold ask at 1. rewrite Hfind.
      unfold bind at 1. unfold ask at 1. simpl. rewrite Hget.
      unfold logger_warn, emit. simpl. by rewrite <- !app_assoc.
Qed.

(** X12.  When the store finds the account and between one and a hundred
    pending actions of it (what a store that obeys the query's limit
    answers), the account's run issues exactly one lookup, for the sink
    ids of the rows in the order of the answer, joined by commas, with
    the account's credentials; the cap of the validator is never hit. *)
Theorem account_run_issues_one_lookup
    {W : Type} (env : Collaborators W) (uid' : string) (s : State W)
    (btUser : BtUser) (w1 w2 : W) (rows : list ActionRow) :
  btUser_find env uid' (st_world s) = (inr (Some btUser), w1) →
  btUser_getActions env btUser getActions_options w1 = (inr (Some rows), w2) →
  0 < length rows →
  length rows ≤ 100 →
  ∃ evs,
    st_trace (processActionsForUserId env uid' s).2 =
      st_trace s ++
        [BtUserFind uid'; GetActions (uid btUser) getActions_options;
         Log LvlDebug [LStr "Checking follow status"; LStr (uid btUser);
                       LStr "--???-->"; LNum (length rows); LStr "users"];
         FriendshipsLookup (String.concat "," (map row_sink_uid rows))
           (access_token btUser) (access_token_secret btUser)] ++ evs
    ∧ List.filter is_lookup evs = [].
Proof.
  intros Hfind Hget Hpos Hcap. unfold processActionsForUserId.
  unfold bind at 1. unfold ask at 1. rewrite Hfind.
  unfold bind at 1. unfold ask at 1. simpl. rewrite Hget.
  unfold bind at 1.
  match goal with
  | |- context [instantiate_all rows ?s2] =>
      pose proof (instantiate_all_trace rows s2) as Htr;
      destruct (instantiate_all_spec rows s2) as (Hw & Hsinks & _);
      destruct (instantiate_all rows s2) as [actions s3]
  end.
  simpl in Htr, Hw, Hsinks.
  assert (length actions = length rows) as Hlen.
  { by rewrite <- (length_map sink_uid actions), Hsinks, length_map. }
  unfold processActionsForUser. rewrite bool_decide_eq_true_2 by lia.
  assert (length (map sink_uid actions) ≤ 100) as Hsmall
    by (rewrite length_map; lia).
  destruct (validator_small env btUser (map sink_uid actions) actions s3 Hsmall)
    as (r & w' & _ & Heq).
  simpl in Heq. rewrite Heq. rewrite Hsinks, length_map, Htr.
  destruct r as [err|friendships].
  - simpl. rewrite <- !app_assoc. simpl.
    eexists. split; [reflexivity|]. done.
  - match goal with
    | |- context [blockUnlessFollowingWithFriendships env ?u ?idx ?l ?s0] =>
        destruct (run_spec env u idx l s0) as (evs & _ & Htr' & _ & _ & Hok & _)
    end.
    rewrite Htr'. simpl. rewrite <- !app_assoc. simpl.
    exists evs. split; [reflexivity|].
    by apply event_ok_no_lookup in Hok.
Qed.

(** ** Ingestion *)

Lemma length_omap_le {A B : Type} (f : A → option B) (l : list A) :
  length (omap f l) ≤ length l.
Proof.
  induction l as [|x l IH]; [done|].
  change (omap f (x :: l)) with
    (match f x with Some y => y :: omap f l | None => omap f l end).
  destruct (f x); simpl; lia.
Qed.

Lemma create_all_calls {W : Type}
    (action_create : NewAction → W → option string * W)
    (source_uid' : string) (list' : list string) (w : W) :
  map fst (create_all action_create source_uid' list' w).1 =
  map (fun sink => {| new_source_uid := source_uid'; new_sink_uid := sink;
                      new_type := "block" |}) list'.
Proof.
  revert w. induction list' as [|sink rest IH]; intros w; [done|].
  simpl. destruct (action_create _ w) as [r w1].
  specialize (IH w1).
  destruct (create_all action_create source_uid' rest w1) as [answers w2].
  simpl in *. by rewrite IH.
Qed.

(** X13.  [queueBlocks] calls [Action.create] once for every uid of the list,
    in order and duplicates included, each time with the source uid, the
    sink uid and the type "block".  A call that fails costs one logged
    error and nothing else: the later calls are made all the same, and no
    call is repeated. *)
Theorem queueBlocks_creates_one_action_per_uid
    {W : Type} (action_create : NewAction → W → option string * W)
    (source_uid' : string) (list' : list string) (w : W) :
  let events := (queueBlocks action_create source_uid' list' w).1 in
  let answers := (create_all action_create source_uid' list' w).1 in
  List.filter is_create events =
    map (fun sink => ActionCreate {| new_source_uid := source_uid';
                                     new_sink_uid := sink;
                                     new_type := "block" |}) list'
  ∧ List.filter (fun e => negb (is_create e)) events =
      omap (fun p => QueueLogError <$> p.2) answers
  ∧ length (List.filter (fun e => negb (is_create e)) events) ≤ length list'
  ∧ length answers = length list'.
Proof.
  intros events answers. subst events answers. unfold queueBlocks.
  pose proof (create_all_calls action_create source_uid' list' w) as Hcalls.
  destruct (create_all action_create source_uid' list' w) as [answers w2].
  simpl in *.
  assert (List.filter is_create (omap (fun p : NewAction * option string =>
            QueueLogError <$> p.2) answers) = []) as Hlogs1.
  { clear. induction answers as [|[attrs [err|]] answers IH]; simpl; done. }
  assert (List.filter (fun e => negb (is_create e))
            (omap (fun p : NewAction * option string =>
               QueueLogError <$> p.2) answers)
          = omap (fun p : NewAction * option string =>
               QueueLogError <$> p.2) answers) as Hlogs2.
  { clear. induction answers as [|[attrs [err|]] answers IH]; simpl; [done| |done].
    f_equal. exact IH. }
  assert (List.filter (fun e => negb (is_create e))
            (map (fun p : NewAction * option string => ActionCreate p.1) answers)
          = []) as Hcalls2.
  { clear. induction answers as [|p answers IH]; simpl; done. }
  assert (List.filter is_create
            (map (fun p : NewAction * option string => ActionCreate p.1) answers)
          = map ActionCreate (map fst answers)) as Hcalls1.
  { clear. induction answers as [|p answers IH]; simpl; [done|].
    f_equal. exact IH. }
  assert (length answers = length list') as Hlen.
  { by rewrite <- (length_map fst answers), Hcalls, length_map. }
  rewrite !List.filter_app, Hlogs1, Hlogs2, Hcalls1, Hcalls2, Hcalls, app_nil_r.
  simpl. split; [by rewrite map_map|]. split; [done|]. split; [|done].
  rewrite <- Hlen. apply length_omap_le.
Qed.

(** ** The two queries of the selector together *)

Lemma group_source_uid_covers seen rows r :
  r ∈ rows →
  row_source_uid r ∈ seen
  ∨ row_source_uid r ∈ row_source_uid <$> group_source_uid seen rows.
Proof.
  revert seen. induction rows as [|x rows IH]; intros seen Hr.
  - by apply elem_of_nil in Hr.
  - simpl. apply elem_of_cons in Hr as [->|Hr].
    + destruct (decide (row_source_uid x ∈ seen)); [by left|].
      right. rewrite fmap_cons. left.
    + destruct (decide (row_source_uid x ∈ seen)) as [Hx|Hx].
      * by apply IH.
      * destruct (IH ({[row_source_uid x]} ∪ seen) Hr) as [Hin|Hin].
        -- apply elem_of_union in Hin as [Hin|Hin]; [|by left].
           apply elem_of_singleton in Hin. right. rewrite fmap_cons, Hin. left.
        -- right. rewrite fmap_cons. by right.
Qed.

Lemma difference_seen (k : string) (S seen : gset string) :
  k ∈ seen → ({[k]} ∪ S) ∖ seen = S ∖ seen.
Proof.
  intros Hk. apply set_eq. intros y.
  rewrite !elem_of_difference, elem_of_union, elem_of_singleton.
  split; [|tauto]. intros [[->|Hy] Hn]; tauto.
Qed.

Lemma difference_fresh (k : string) (S seen : gset string) :
  k ∉ seen → ({[k]} ∪ S) ∖ seen = {[k]} ∪ S ∖ ({[k]} ∪ seen).
Proof.
  intros Hk. apply set_eq. intros y.
  rewrite !elem_of_union, !elem_of_difference, !elem_of_union,
    !elem_of_singleton.
  destruct (decide (y = k)) as [->|Hne]; tauto.
Qed.

Lemma group_source_uid_length seen rows :
  length (group_source_uid seen rows) =
  size ((list_to_set (row_source_uid <$> rows) : gset string) ∖ seen).
Proof.
  revert seen. induction rows as [|x rows IH]; intros seen.
  - simpl. replace ((∅ : gset string) ∖ seen) with (∅ : gset string).
    + by rewrite size_empty.
    + apply set_eq. intros y. rewrite elem_of_difference.
      split; [intros Hy|intros [Hy _]]; by apply not_elem_of_empty in Hy.
  - rewrite fmap_cons, list_to_set_cons. simpl.
    destruct (decide (row_source_uid x ∈ seen)) as [Hx|Hx].
    + by rewrite IH, difference_seen.
    + simpl. rewrite IH, difference_fresh by done.
      assert (({[row_source_uid x]} : gset string) ##
              (list_to_set (row_source_uid <$> rows) : gset string)
                ∖ ({[row_source_uid x]} ∪ seen)) as Hdisj.
      { intros y Hy1 Hy2. apply elem_of_singleton in Hy1 as ->.
        apply elem_of_difference in Hy2 as [_ Hy2].
        apply Hy2, elem_of_union. left. by apply elem_of_singleton. }
      by rewrite (size_union _ _ Hdisj), size_singleton.
Qed.

(** X14.  When at most three hundred accounts have pending block actions, the
    first query names every one of them: each pending block row's
    [source_uid] is among the uids [processBlocks] goes through. *)
Theorem enumeration_covers_accounts (table : list ActionRow) (r : ActionRow) :
  size (list_to_set
          (row_source_uid <$> sql_where [StatusIs PENDING; TypeIs "block"] table)
        : gset string) ≤ 300 →
  r ∈ table →
  row_status r = PENDING →
  row_type r = "block" →
  row_source_uid r ∈ processBlocks_uids (findAll processBlocks_options table).
Proof.
  intros Hsize Hr Hstatus Htype.
  unfold processBlocks_uids, findAll, processBlocks_options; simpl.
  set (pending := sql_where [StatusIs PENDING; TypeIs "block"] table) in *.
  assert (r ∈ pending) as Hp.
  { apply elem_of_sql_where. split; [done|]. intros c Hc.
    apply elem_of_cons in Hc as [->|Hc]; [by apply bool_decide_eq_true|].
    apply list_elem_of_singleton in Hc as ->. by apply bool_decide_eq_true. }
  rewrite take_ge.
  - destruct (group_source_uid_covers ∅ pending r Hp) as [Hin|Hin].
    + by apply not_elem_of_empty in Hin.
    + apply list_elem_of_fmap in Hin as (x & Heq & Hx).
      apply list_elem_of_In, in_map_iff. exists x.
      split; [done|by apply list_elem_of_In].
  - rewrite group_source_uid_length, difference_empty_L. exact Hsize.
Qed.

(** X15.  Every account the first query names has work for the second: on the
    same table, the batch loaded for an account whose uid is enumerated
    is not empty. *)
Theorem enumerated_account_has_a_batch
    (table : list ActionRow) (btUser : BtUser) :
  uid btUser ∈ processBlocks_uids (findAll processBlocks_options table) →
  0 < length (getActions btUser getActions_options table).
Proof.
  unfold processBlocks_uids, getActions, findAll, processBlocks_options,
    getActions_options; simpl.
  intros Hin. apply list_elem_of_In, in_map_iff in Hin as (x & Heq & Hx).
  apply list_elem_of_In, subseteq_take in Hx.
  destruct (group_source_uid_spec ∅
              (sql_where [StatusIs PENDING; TypeIs "block"] table))
    as (Hsub & _).
  apply Hsub, elem_of_sql_where in Hx as [Hx Hc].
  assert (x ∈ sql_where [SourceIs (uid btUser); StatusIs PENDING; TypeIs "block"]
                table) as Hmine.
  { apply elem_of_sql_where. split; [done|]. intros c Hcin.
    apply elem_of_cons in Hcin as [->|Hcin]; [by apply bool_decide_eq_true|].
    by apply Hc. }
  rewrite length_take, merge_sort_Permutation.
  destruct (sql_where [SourceIs (uid btUser); StatusIs PENDING; TypeIs "block"]
              table) as [|y l]; [by apply elem_of_nil in Hmine|].
  simpl. lia.
Qed.

(** ** Instances of the further properties on the scenarios *)

Lemma saves_down_blocks_never_fail : blocks_never_fail saves_down.
Proof. intros u t k w. eexists _, _. reflexivity. Defined.

Lemma batch_drains_when_writes_succeed_sample :
  let s := pending_state mixed_actions in
  blocks_never_fail saves_down
  ∧ ∃ evs,
      st_trace (blockUnlessFollowingWithFriendships saves_down sample_user
                  sample_index mixed_actions s).2 = st_trace s ++ evs
      ∧ decisions evs = ["1003"; "1002"; "1003"; "1007"].
Proof.
  intros s. split; [exact saves_down_blocks_never_fail|].
  destruct (batch_drains_when_writes_succeed saves_down sample_user sample_index
              mixed_actions s saves_down_blocks_never_fail)
    as (evs & Htr & Hdec & _).
  exists evs. split; [exact Htr|exact Hdec].
Defined.

Lemma mixed_actions_NoDup : NoDup (action_id <$> mixed_actions).
Proof.
  refine (bool_decide_unpack _ _). vm_compute. exact I.
Defined.

Lemma batch_final_statuses_sample :
  let s := pending_state mixed_actions in
  let s' := (blockUnlessFollowingWithFriendships saves_down sample_user
               sample_index mixed_actions s).2 in
  blocks_never_fail saves_down
  ∧ NoDup (action_id <$> mixed_actions)
  ∧ sample_action 3 "1003" ∈ mixed_actions
  ∧ st_status s' !! 3 = Some DONE.
Proof.
  intros s s'.
  assert (sample_action 3 "1003" ∈ mixed_actions) as Hin
    by (do 2 right; left).
  split; [exact saves_down_blocks_never_fail|].
  split; [exact mixed_actions_NoDup|]. split; [exact Hin|].
  exact (batch_final_statuses saves_down sample_user sample_index mixed_actions s
           (sample_action 3 "1003") saves_down_blocks_never_fail
           mixed_actions_NoDup Hin).
Defined.

Lemma batch_leaves_other_actions_alone_sample :
  let s := pending_state (sample_action 9 "1002" :: mixed_actions) in
  (9 ∉ action_id <$> mixed_actions)
  ∧ st_status (blockUnlessFollowingWithFriendships all_up sample_user
                 sample_index mixed_actions s).2 !! 9 = Some PENDING.
Proof.
  intros s.
  assert (9 ∉ action_id <$> mixed_actions) as Hout.
  { refine (bool_decide_unpack _ _). vm_compute. exact I. }
  split; [exact Hout|].
  rewrite (batch_leaves_other_actions_alone all_up sample_user sample_index
             mixed_actions s 9 Hout).
  reflexivity.
Defined.

Lemma block_write_success_marks_done_sample :
  let action := sample_action 1 "1003" in
  let s := pending_state [action] in
  newState sample_user (sample_index !! sink_uid action) (sink_uid action) = None
  ∧ twitter_blocks all_up (sink_uid action) (access_token sample_user)
      (access_token_secret sample_user) (st_world s)
    = (inr {| blocked_screen_name := "blocked"; blocked_id_str := "1003" |}, tt)
  ∧ ∃ s1, (∀ next, processAction all_up sample_user sample_index action next s
                   = next s1)
          ∧ st_status s1 = <[1 := DONE]> (st_status s).
Proof.
  intros action s.
  assert (newState sample_user (sample_index !! sink_uid action) (sink_uid action)
          = None) as Hclear by reflexivity.
  split; [exact Hclear|]. split; [reflexivity|].
  destruct (block_write_success_marks_done all_up sample_user sample_index action s
              {| blocked_screen_name := "blocked"; blocked_id_str := "1003" |} tt
              Hclear eq_refl)
    as (s1 & evs & Hnext & Hstatus & _).
  exists s1. split; [exact Hnext|exact Hstatus].
Defined.

Lemma all_up_blocks_never_fail : blocks_never_fail all_up.
Proof. intros u t k w. eexists _, _. reflexivity. Defined.

Lemma validated_batch_final_statuses_sample :
  let s := pending_state mixed_actions in
  let sinkUids := map sink_uid mixed_actions in
  let a := sample_action 4 "1007" in
  let s' := (blockUnlessFollowing all_up sample_user sinkUids mixed_actions s).2 in
  length sinkUids ≤ 100
  ∧ a ∈ mixed_actions
  ∧ (sink_uid a ∉ id_str <$> sample_friendships)
  ∧ (sink_uid a ∉ Object_prototype_keys)
  ∧ st_status s' !! action_id a = Some DEFERRED_TARGET_SUSPENDED.
Proof.
  intros s sinkUids a s'.
  assert (length sinkUids ≤ 100) as Hlen by (vm_compute; lia).
  assert (a ∈ mixed_actions) as Hin by (do 3 right; left).
  assert (sink_uid a ∉ id_str <$> sample_friendships) as Habsent.
  { refine (bool_decide_unpack _ _). vm_compute. exact I. }
  assert (sink_uid a ∉ Object_prototype_keys) as Hplain.
  { refine (bool_decide_unpack _ _). vm_compute. exact I. }
  split; [exact Hlen|]. split; [exact Hin|]. split; [exact Habsent|].
  split; [exact Hplain|].
  exact (proj2 (validated_batch_final_statuses all_up sample_user sinkUids
                  mixed_actions s sample_friendships tt a Hlen eq_refl
                  all_up_blocks_never_fail mixed_actions_NoDup Hin)
           Habsent Hplain).
Defined.

Lemma account_run_issues_one_lookup_sample :
  let s := pending_state [] in
  let rows := getActions sample_user getActions_options sample_table in
  0 < length rows
  ∧ length rows ≤ 100
  ∧ ∃ evs,
      st_trace (processActionsForUserId all_up "1001" s).2 =
        [BtUserFind "1001"; GetActions "1001" getActions_options;
         Log LvlDebug [LStr "Checking follow status"; LStr "1001";
                       LStr "--???-->"; LNum 3; LStr "users"];
         FriendshipsLookup "1007,1006,1003" "token" "secret"] ++ evs
      ∧ List.filter is_lookup evs = [].
Proof.
  intros s rows.
  assert (0 < length rows) as Hpos by (vm_compute; lia).
  assert (length rows ≤ 100) as Hcap by (vm_compute; lia).
  split; [exact Hpos|]. split; [exact Hcap|].
  exact (account_run_issues_one_lookup all_up "1001" s sample_user tt tt rows
           eq_refl eq_refl Hpos Hcap).
Defined.

Lemma enumeration_covers_accounts_sample :
  let other := {| row_id := 4; row_source_uid := "2001"; row_sink_uid := "1003";
                  row_type := "block"; row_status := PENDING;
                  row_updatedAt := 1 |} in
  other ∈ sample_table
  ∧ "2001" ∈ processBlocks_uids (findAll processBlocks_options sample_table).
Proof.
  intros other.
  assert (other ∈ sample_table) as Hin by (do 3 right; left).
  split; [exact Hin|].
  refine (enumeration_covers_accounts sample_table other _ Hin eq_refl eq_refl).
  vm_compute. lia.
Defined.

Lemma enumerated_account_has_a_batch_sample :
  uid sample_user ∈ processBlocks_uids (findAll processBlocks_options sample_table)
  ∧ 0 < length (getActions sample_user getActions_options sample_table).
Proof.
  assert (uid sample_user
          ∈ processBlocks_uids (findAll processBlocks_options sample_table))
    as Hin by (vm_compute; left).
  split; [exact Hin|].
  exact (enumerated_account_has_a_batch sample_table sample_user Hin).
Defined.

(** ** The statuses a batch saves *)

Lemma newState_precedence sourceBtUser friendship sink :
  let suppressed :=
    ∃ u, u ∈ unblockedUsers sourceBtUser ∧ unblocked_sink_uid u = sink in
  let out := newState sourceBtUser friendship sink in
  (friendship = None → out = Some DEFERRED_TARGET_SUSPENDED)
  ∧ (∀ f, friendship = Some f →
       ("blocking" ∈ connections f → out = Some CANCELLED_DUPLICATE)
       ∧ ("blocking" ∉ connections f → "following" ∈ connections f →
            out = Some CANCELLED_FOLLOWING)
       ∧ ("blocking" ∉ connections f → "following" ∉ connections f →
            suppressed → out = Some CANCELLED_UNBLOCKED)
       ∧ ("blocking" ∉ connections f → "following" ∉ connections f →
            ¬ suppressed → uid sourceBtUser = sink → out = Some CANCELLED_SELF)
       ∧ ("blocking" ∉ connections f → "following" ∉ connections f →
            ¬ suppressed → uid sourceBtUser ≠ sink → out = None)).
Proof.
  intros suppressed out. subst out. split; [by intros ->|].
  intros f ->. unfold newState.
  split; [|split; [|split; [|split]]].
  - intros Hb. by rewrite contains_true.
  - intros Hb Hf. rewrite (contains_false _ "blocking") by done.
    by rewrite contains_true.
  - intros Hb Hf Hs. rewrite !contains_false by done.
    apply find_unblocked_Some in Hs as [u ->]. done.
  - intros Hb Hf Hs Hself. rewrite !contains_false by done.
    destruct (find_unblocked _ sink) as [u|] eqn:Hfu.
    { exfalso. apply Hs. apply find_unblocked_Some. by eexists. }
    by rewrite bool_decide_eq_true_2.
  - intros Hb Hf Hs Hself. rewrite !contains_false by done.
    destruct (find_unblocked _ sink) as [u|] eqn:Hfu.
    { exfalso. apply Hs. apply find_unblocked_Some. by eexists. }
    by rewrite bool_decide_eq_false_2.
Qed.

(** X18.  Whatever a batch saves follows the precedence: every save of a
    run is the save of an action of the batch, and the status it carries
    is DEFERRED_TARGET_SUSPENDED when the index has nothing for the
    action's sink, CANCELLED_DUPLICATE when the relationship has the tag
    "blocking" (also when it has "following" too), CANCELLED_FOLLOWING
    when it has "following" and not "blocking", CANCELLED_UNBLOCKED when
    it has neither and the sink is in the suppression list,
    CANCELLED_SELF when none of these holds and the sink is the account
    itself, and DONE otherwise. *)
Theorem saved_statuses_follow_precedence
    {W : Type} (env : Collaborators W) (sourceBtUser : BtUser)
    (indexedFriendships : gmap string Friendship) (actions : list Action)
    (s : State W) :
  ∃ evs,
    st_trace (blockUnlessFollowingWithFriendships env sourceBtUser
                indexedFriendships actions s).2 = st_trace s ++ evs
    ∧ ∀ a st, Save a st ∈ evs →
        let suppressed :=
          ∃ u, u ∈ unblockedUsers sourceBtUser
               ∧ unblocked_sink_uid u = sink_uid a in
        a ∈ actions
        ∧ ∃ st', st = Some st'
          ∧ (indexedFriendships !! sink_uid a = None →
             st' = DEFERRED_TARGET_SUSPENDED)
          ∧ (∀ f, indexedFriendships !! sink_uid a = Some f →
               ("blocking" ∈ connections f → st' = CANCELLED_DUPLICATE)
               ∧ ("blocking" ∉ connections f → "following" ∈ connections f →
                    st' = CANCELLED_FOLLOWING)
               ∧ ("blocking" ∉ connections f → "following" ∉ connections f →
                    suppressed → st' = CANCELLED_UNBLOCKED)
               ∧ ("blocking" ∉ connections f → "following" ∉ connections f →
                    ¬ suppressed → uid sourceBtUser = sink_uid a →
                    st' = CANCELLED_SELF)
               ∧ ("blocking" ∉ connections f → "following" ∉ connections f →
                    ¬ suppressed → uid sourceBtUser ≠ sink_uid a →
                    st' = DONE)).
Proof.
  destruct (run_spec env sourceBtUser indexedFriendships actions s)
    as (evs & _ & Htr & _ & _ & Hok & _).
  exists evs. split; [done|]. intros a st Hin suppressed.
  rewrite Forall_forall in Hok. apply Hok in Hin. simpl in Hin.
  destruct Hin as (Ha & st' & -> & Hdecided).
  split; [done|]. exists st'. split; [done|].
  destruct (newState_precedence sourceBtUser
              (indexedFriendships !! sink_uid a) (sink_uid a)) as [Hnone Hsome].
  assert (∀ x, newState sourceBtUser (indexedFriendships !! sink_uid a)
                 (sink_uid a) = Some x → st' = x) as Hres.
  { intros x Hx. destruct Hdecided as [Hd|[_ Hd]]; congruence. }
  split; [intros Hf; by apply Hres, Hnone|].
  intros f Hf. destruct (Hsome f Hf) as (H1 & H2 & H3 & H4 & H5).
  split; [|split; [|split; [|split]]].
  - intros Hb. by apply Hres, H1.
  - intros Hb Hfo. by apply Hres, H2.
  - intros Hb Hfo Hs. by apply Hres, H3.
  - intros Hb Hfo Hs Hself. by apply Hres, H4.
  - intros Hb Hfo Hs Hself.
    destruct Hdecided as [Hd|[Hd _]]; [|done].
    rewrite (H5 Hb Hfo Hs Hself) in Hd. done.
Qed.
